(** * file-tree-render: the in-memory node store of src/api/file-operations.ts

    A shallow embedding of the node table [DATA] and of the operations
    exported by [file-operations.ts] (readINode, searchFiles, createFile,
    createDirectory, renameNode, deleteNode, getAllNodes, resetFileSystem),
    followed by the properties of the store that the specification states.

    Modelling conventions.
    - A JavaScript string is a Rocq [string].  [toLowerCase] lowers the
      letters A-Z and leaves every other character alone, which is what
      [String.prototype.toLowerCase] does on a string of ASCII characters;
      the properties that depend on how letters fold are stated for ASCII
      names and queries ([ascii_only]).
    - [Map<string, INode>] is an association list in insertion order, the
      order in which [entries()] iterates; keys are unique ([JSMap.wf]).
    - The module-level table [DATA] is threaded explicitly: an operation
      takes the table and returns the settled promise with the new table.
    - Every key of the table holds an object of its own, so the in-place
      field updates of the source are updates of the entry under that key.
      The one place where two names denote one object inside a function
      ([createDirectory] with [parentId = dirName]) is written out there.
    - [deleteNode] recurses through children lists, one nested call for
      each level it descends.  Its argument [fuel] is the number of nested
      calls there is room for.  A result [Some] is the outcome of a cascade
      that completes within that nesting; it is the outcome of the real
      call whenever the call stack has that much room, and every real call
      that fulfils has such a result.  [None] gives no outcome: the cascade
      does not complete within [fuel] nested calls.  When that is so for
      every [fuel] (a directory may list itself) the real call never
      fulfils: the engine ends it with a [RangeError] once the nesting
      outgrows the stack, or it runs on. *)

From Stdlib Require Import String Ascii List Bool Arith Lia.
Import ListNotations.
Open Scope string_scope.
Open Scope list_scope.

(** ** Strings *)

Module JSString.

(** [c.toLowerCase()] on one character. *)
Definition lower_char (c : ascii) : ascii :=
  let n := nat_of_ascii c in
  if ((65 <=? n) && (n <=? 90))%nat then ascii_of_nat (n + 32)%nat else c.

(** [s.toLowerCase()], for a string of ASCII characters. *)
Fixpoint toLowerCase (s : string) : string :=
  match s with
  | EmptyString => EmptyString
  | String c s' => String (lower_char c) (toLowerCase s')
  end.

(** [s.includes(search)]: [search] occurs in [s] at some position. *)
Fixpoint includes (s search : string) : bool :=
  if String.prefix search s then true
  else match s with
       | EmptyString => false
       | String _ s' => includes s' search
       end.

End JSString.

(** ** Nodes (src/types/file-types.ts) *)

Inductive NodeType : Type := file | directory.

(** [INode = File | Directory], the [type] field being the constructor. *)
Inductive INode : Type :=
| File (id name : string)
| Directory (id name : string) (children : list string).

Definition node_id (n : INode) : string :=
  match n with File i _ => i | Directory i _ _ => i end.

Definition node_name (n : INode) : string :=
  match n with File _ nm => nm | Directory _ nm _ => nm end.

Definition node_type (n : INode) : NodeType :=
  match n with File _ _ => file | Directory _ _ _ => directory end.

(** The [children] field; a file has none. *)
Definition node_children (n : INode) : option (list string) :=
  match n with File _ _ => None | Directory _ _ c => Some c end.

(** [node.name = newName]. *)
Definition set_name (newName : string) (n : INode) : INode :=
  match n with
  | File i _ => File i newName
  | Directory i _ c => Directory i newName c
  end.

(** [SearchResult = INode & { path: string }]. *)
Record SearchResult : Type := mkSearchResult {
  result_node : INode;
  path : string
}.

(** ** The JavaScript Map *)

Module JSMap.
Section WithValue.

Variable V : Type.

Definition t : Type := list (string * V).

Definition entries (m : t) : list (string * V) := m.

Definition keys (m : t) : list string := map fst m.

Definition size (m : t) : nat := length m.

Definition clear (m : t) : t := [].

Fixpoint get (k : string) (m : t) : option V :=
  match m with
  | [] => None
  | (k', v) :: m' => if String.eqb k' k then Some v else get k m'
  end.

(** [m.set(k, v)]: an existing key keeps its place, a new key goes last. *)
Fixpoint set (k : string) (v : V) (m : t) : t :=
  match m with
  | [] => [(k, v)]
  | (k', v') :: m' =>
      if String.eqb k' k then (k, v) :: m' else (k', v') :: set k v m'
  end.

(** [m.delete(k)]: the entry of [k], if there is one, is removed (keys being
    unique, at most one entry goes). *)
Definition delete (k : string) (m : t) : t :=
  filter (fun e => negb (String.eqb (fst e) k)) m.

(** [new Map(iterable)]. *)
Definition from_entries (l : list (string * V)) : t :=
  fold_left (fun m e => set (fst e) (snd e) m) l [].

(** Keys are unique. *)
Definition wf (m : t) : Prop := NoDup (keys m).

End WithValue.

Arguments entries {V} m.
Arguments keys {V} m.
Arguments size {V} m.
Arguments clear {V} m.
Arguments get {V} k m.
Arguments set {V} k v m.
Arguments delete {V} k m.
Arguments from_entries {V} l.
Arguments wf {V} m.

End JSMap.

(** ** Promises *)

(** How the promise returned by an [async] function settles. *)
Inductive Promise (A : Type) : Type :=
| Fulfilled (value : A)
| Rejected (reason : string).

Arguments Fulfilled {A} value.
Arguments Rejected {A} reason.

(** ** The store (src/api/file-operations.ts) *)

Definition Store : Type := JSMap.t INode.

(** The entries the module-level [DATA] is built from. *)
Definition DATA_entries : list (string * INode) :=
  [ ("root", Directory "root" "src" ["index.tsx"; "components"; "types"]);
    ("index.tsx", File "index.tsx" "index.tsx");
    ("components", Directory "components" "components" ["button.tsx"]);
    ("button.tsx", File "button.tsx" "button.tsx");
    ("types", Directory "types" "types" ["file-types.tsx"; "other-types.tsx"]);
    ("file-types.tsx", File "file-types.tsx" "file-types.tsx");
    ("other-types.tsx", File "other-types.tsx" "other-types.tsx") ].

(** [const DATA = new Map([...])]: the table when the module is loaded. *)
Definition DATA : Store := JSMap.from_entries DATA_entries.

(** [readINode(id = "root")]: [DATA.get(id) || null]. *)
Definition readINode (id : option string) (D : Store)
  : Promise (option INode) * Store :=
  let id := match id with Some i => i | None => "root" end in
  (Fulfilled (JSMap.get id D), D).

(** The loop of [searchFiles]: one pass over [DATA.entries()], pushing a
    result for each match. *)
Definition searchFiles_loop (searchQuery : string)
    (es : list (string * INode)) : list SearchResult :=
  fold_left
    (fun results e =>
       let node := snd e in
       if JSString.includes (JSString.toLowerCase (node_name node)) searchQuery
       then results ++ [mkSearchResult node (node_name node)]
       else results)
    es [].

Definition searchFiles (query : string) (D : Store)
  : Promise (list SearchResult) * Store :=
  let searchQuery := JSString.toLowerCase query in
  (Fulfilled (searchFiles_loop searchQuery (JSMap.entries D)), D).

(** The default of the parameter [fileExtension = ".txt"]. *)
Definition extension_of (fileExtension : option string) : string :=
  match fileExtension with Some e => e | None => ".txt" end.

(** [createFile(parentId, fileName, fileExtension = ".txt")]. *)
Definition createFile (parentId fileName : string)
    (fileExtension : option string) (D : Store) : Promise INode * Store :=
  let fileExtension := extension_of fileExtension in
  let newId := (fileName ++ fileExtension)%string in
  let newFile := File newId (fileName ++ fileExtension)%string in
  let D1 := JSMap.set newId newFile D in
  match JSMap.get parentId D1 with
  | Some (Directory pid pname pchildren) =>
      let parent := Directory pid pname (pchildren ++ [newId]) in
      (Fulfilled newFile, JSMap.set parentId parent D1)
  | _ => (Fulfilled newFile, D1)
  end.

(** [createDirectory(parentId, dirName)].  The function returns the object
    [newDir]; when [parentId] is [dirName] the parent fetched from the table
    is that same object, so the returned directory carries the child that
    was just appended. *)
Definition createDirectory (parentId dirName : string) (D : Store)
  : Promise INode * Store :=
  let newId := dirName in
  let newDir := Directory newId dirName [] in
  let D1 := JSMap.set newId newDir D in
  match JSMap.get parentId D1 with
  | Some (Directory pid pname pchildren) =>
      let parent := Directory pid pname (pchildren ++ [newId]) in
      let returned := if String.eqb parentId newId then parent else newDir in
      (Fulfilled returned, JSMap.set parentId parent D1)
  | _ => (Fulfilled newDir, D1)
  end.

(** [renameNode(nodeId, newName)]: [return node!] hands back [undefined]
    ([None]) when the id is absent. *)
Definition renameNode (nodeId newName : string) (D : Store)
  : Promise (option INode) * Store :=
  match JSMap.get nodeId D with
  | Some node =>
      let node := set_name newName node in
      (Fulfilled (Some node), JSMap.set nodeId node D)
  | None => (Fulfilled None, D)
  end.

(** [for (const childId of children) { await f(childId); }]: a rejected
    [await] leaves the loop. *)
Fixpoint for_each_child
    (f : string -> Store -> option (Promise bool * Store))
    (children : list string) (D : Store) : option (Promise unit * Store) :=
  match children with
  | [] => Some (Fulfilled tt, D)
  | childId :: rest =>
      match f childId D with
      | None => None
      | Some (Rejected r, D1) => Some (Rejected r, D1)
      | Some (Fulfilled _, D1) => for_each_child f rest D1
      end
  end.

(** [deleteNode(nodeId)], with room for [fuel] nested calls. *)
Fixpoint deleteNode (fuel : nat) (nodeId : string) (D : Store)
  : option (Promise bool * Store) :=
  match fuel with
  | O => None
  | S fuel' =>
      match JSMap.get nodeId D with
      | None => Some (Fulfilled false, D)
      | Some node =>
          let cascade :=
            match node with
            | Directory _ _ children =>
                if (0 <? length children)%nat
                then for_each_child (deleteNode fuel') children D
                else Some (Fulfilled tt, D)
            | File _ _ => Some (Fulfilled tt, D)
            end in
          match cascade with
          | None => None
          | Some (Rejected r, D1) => Some (Rejected r, D1)
          | Some (Fulfilled _, D1) =>
              Some (Fulfilled true, JSMap.delete nodeId D1)
          end
      end
  end.

(** [getAllNodes()]: [new Map(DATA)]. *)
Definition getAllNodes (D : Store) : Promise Store * Store :=
  (Fulfilled (JSMap.from_entries (JSMap.entries D)), D).

(** The literal [initialData] of [resetFileSystem]. *)
Definition initialData : list (string * INode) :=
  [ ("root", Directory "root" "src" ["index.tsx"; "components"; "types"]);
    ("index.tsx", File "index.tsx" "index.tsx");
    ("components", Directory "components" "components" ["button.tsx"]);
    ("button.tsx", File "button.tsx" "button.tsx");
    ("types", Directory "types" "types" ["file-types.tsx"; "other-types.tsx"]);
    ("file-types.tsx", File "file-types.tsx" "file-types.tsx");
    ("other-types.tsx", File "other-types.tsx" "other-types.tsx") ].

(** The node built from one [nodeData] of [initialData]. *)
Definition node_of_data (nodeData : INode) : INode :=
  match nodeData with
  | Directory i nm children => Directory i nm children
  | File i nm => File i nm
  end.

(** [resetFileSystem()]. *)
Definition resetFileSystem (D : Store) : Promise unit * Store :=
  let D0 := JSMap.clear D in
  (Fulfilled tt,
   fold_left (fun m e => JSMap.set (fst e) (node_of_data (snd e)) m)
     initialData D0).

(** ** Reachable states *)

(** The tables that a sequence of create, rename and delete calls (and
    resets) produces from the initial one. *)
Inductive reachable : Store -> Prop :=
| reach_init : reachable DATA
| reach_createFile D parentId fileName fileExtension :
    reachable D ->
    reachable (snd (createFile parentId fileName fileExtension D))
| reach_createDirectory D parentId dirName :
    reachable D ->
    reachable (snd (createDirectory parentId dirName D))
| reach_renameNode D nodeId newName :
    reachable D ->
    reachable (snd (renameNode nodeId newName D))
| reach_deleteNode D fuel nodeId p D' :
    reachable D ->
    deleteNode fuel nodeId D = Some (p, D') ->
    reachable D'
| reach_resetFileSystem D :
    reachable D ->
    reachable (snd (resetFileSystem D)).

(** ** Predicates used to state the properties *)

(** [q] occurs in [s]: the meaning of a substring match. *)
Definition is_substring (q s : string) : Prop :=
  exists a b : string, s = (a ++ q ++ b)%string.

(** The test that [searchFiles] applies to an entry of the table. *)
Definition matches (searchQuery : string) (e : string * INode) : bool :=
  JSString.includes (JSString.toLowerCase (node_name (snd e))) searchQuery.

(** The result that [searchFiles] pushes for a node. *)
Definition result_of (node : INode) : SearchResult :=
  mkSearchResult node (node_name node).

(** [D'] holds no entry that [D] does not hold. *)
Definition sub_store (D' D : Store) : Prop :=
  forall k v, JSMap.get k D' = Some v -> JSMap.get k D = Some v.

(** The children relation of [D] descends along [rank]: every id listed by
    a directory of the table has a smaller rank than the directory. *)
Definition ranked (rank : string -> nat) (D : Store) : Prop :=
  forall k i nm children c,
    JSMap.get k D = Some (Directory i nm children) ->
    In c children -> rank c < rank k.

(** [x] hangs below [k] in [D]: it is listed by [k], or by a directory
    that hangs below [k]. *)
Inductive descendant (D : Store) : string -> string -> Prop :=
| desc_child k i nm children x :
    JSMap.get k D = Some (Directory i nm children) ->
    In x children ->
    descendant D k x
| desc_below k i nm children c x :
    JSMap.get k D = Some (Directory i nm children) ->
    In c children ->
    descendant D c x ->
    descendant D k x.

(** The ids missing from [D] are closed under the children lists of [D0]:
    when a directory of [D0] is gone from [D], so is everything it lists. *)
Definition cascaded (D0 D : Store) : Prop :=
  sub_store D D0 /\
  forall k i nm children c,
    JSMap.get k D0 = Some (Directory i nm children) ->
    JSMap.get k D = None ->
    In c children ->
    JSMap.get c D = None.

(** Every node is stored under its own id. *)
Definition keyed_by_id (D : Store) : Prop :=
  forall k v, JSMap.get k D = Some v -> node_id v = k.

(** [ranked], as a test that can be run on a given table. *)
Definition rankedb (rank : string -> nat) (D : Store) : bool :=
  forallb
    (fun e =>
       match snd e with
       | Directory _ _ children =>
           forallb (fun c => (rank c <? rank (fst e))%nat) children
       | File _ _ => true
       end)
    D.

(** A rank for the initial tree: the depth below which nothing hangs. *)
Definition seed_rank (k : string) : nat :=
  if String.eqb k "root" then 2
  else if String.eqb k "components" then 1
  else if String.eqb k "types" then 1
  else 0.

(** ** Tables built without a delete *)

(** The tables that create, rename and reset calls alone produce. *)
Inductive built : Store -> Prop :=
| built_init : built DATA
| built_createFile D parentId fileName fileExtension :
    built D ->
    built (snd (createFile parentId fileName fileExtension D))
| built_createDirectory D parentId dirName :
    built D ->
    built (snd (createDirectory parentId dirName D))
| built_renameNode D nodeId newName :
    built D ->
    built (snd (renameNode nodeId newName D))
| built_resetFileSystem D :
    built D ->
    built (snd (resetFileSystem D)).

(** Every id that a directory of the table lists is in the table. *)
Definition no_dangling (D : Store) : Prop :=
  forall k i nm children c,
    JSMap.get k D = Some (Directory i nm children) ->
    In c children ->
    JSMap.get c D <> None.

(** ** The module with the operations left to do (src/unnamed/part_000)

    The same table and the same [readINode], [getAllNodes] and
    [resetFileSystem]; the other operations return without touching the
    table. *)

Module Unfinished.

Definition searchFiles (query : string) (D : Store)
  : Promise (list SearchResult) * Store :=
  (Fulfilled [], D).

Definition createFile (parentId fileName : string)
    (fileExtension : option string) (D : Store) : Promise INode * Store :=
  (Fulfilled (File "generated-id" fileName), D).

Definition createDirectory (parentId dirName : string) (D : Store)
  : Promise INode * Store :=
  (Fulfilled (Directory "generated-id" dirName []), D).

Definition renameNode (nodeId newName : string) (D : Store)
  : Promise (option INode) * Store :=
  let node := JSMap.get nodeId D in
  (Fulfilled node, D).

Definition deleteNode (nodeId : string) (D : Store) : Promise bool * Store :=
  (Fulfilled true, D).

(** The tables that calls of this module produce from the initial one. *)
Inductive reachable : Store -> Prop :=
| reach_init : reachable DATA
| reach_searchFiles D query :
    reachable D -> reachable (snd (searchFiles query D))
| reach_createFile D parentId fileName fileExtension :
    reachable D ->
    reachable (snd (createFile parentId fileName fileExtension D))
| reach_createDirectory D parentId dirName :
    reachable D -> reachable (snd (createDirectory parentId dirName D))
| reach_renameNode D nodeId newName :
    reachable D -> reachable (snd (renameNode nodeId newName D))
| reach_deleteNode D nodeId :
    reachable D -> reachable (snd (deleteNode nodeId D))
| reach_resetFileSystem D :
    reachable D -> reachable (snd (resetFileSystem D)).

End Unfinished.

(** ** The cache of the tree viewer (src/unnamed/part_001)

    [nodeCache] is a [Map<string, INode>] of the viewer's module; what is
    stored for an id is the object that [readINode] returned, or [null].
    The viewer imports [readINode] from [./api/read-inode], the module with
    the operations left to do: there no node is ever updated in place, so a
    cached object keeps the value it was read with, and the cache is
    modelled as holding values.  It says nothing of a table whose nodes are
    updated in place.  One run of [getFileTrees] is taken as a whole, from
    the test of the cache to the call of [setFileTree]. *)

Definition NodeCache : Type := JSMap.t (option INode).

(** [getFileTrees()] for the property [dirId], reading the table [D]: the
    value handed to [setFileTree], and the cache afterwards. *)
Definition getFileTrees (dirId : string) (nodeCache : NodeCache) (D : Store)
  : Promise (option INode) * NodeCache :=
  match JSMap.get dirId nodeCache with
  | Some cached => (Fulfilled cached, nodeCache)
  | None =>
      match fst (readINode (Some dirId) D) with
      | Fulfilled fileTrees =>
          (Fulfilled fileTrees, JSMap.set dirId fileTrees nodeCache)
      | Rejected reason => (Rejected reason, nodeCache)
      end
  end.

(** The cache after a series of runs, each for an id and on the table of
    its moment. *)
Fixpoint after_reads (runs : list (string * Store)) (nodeCache : NodeCache)
  : NodeCache :=
  match runs with
  | [] => nodeCache
  | (dirId, D) :: rest =>
      after_reads rest (snd (getFileTrees dirId nodeCache D))
  end.

(** Every cached value is what the table [D] holds for the id. *)
Definition coherent (nodeCache : NodeCache) (D : Store) : Prop :=
  forall k v, JSMap.get k nodeCache = Some v -> v = JSMap.get k D.

(** ** Letter case, for ASCII strings *)

Definition is_ascii (c : ascii) : bool := (nat_of_ascii c <? 128)%nat.

(** Every character of [s] is an ASCII character. *)
Fixpoint ascii_only (s : string) : bool :=
  match s with
  | EmptyString => true
  | String c s' => is_ascii c && ascii_only s'
  end.





(** * Properties *)

(** ** Facts about the Map *)

Module JSMapFacts.
Section WithValue.

Context {V : Type}.
Implicit Types (m : JSMap.t V) (k : string) (v : V).

Lemma get_set_eq m k v : JSMap.get k (JSMap.set k v m) = Some v.
Proof.
  induction m as [|[k' v'] m IH]; simpl.
  - now rewrite String.eqb_refl.
  - destruct (String.eqb k' k) eqn:E; simpl.
    + now rewrite String.eqb_refl.
    + now rewrite E.
Qed.

Lemma get_set_neq m k k' v :
  k <> k' -> JSMap.get k (JSMap.set k' v m) = JSMap.get k m.
Proof.
  intros Hne. induction m as [|[k0 v0] m IH]; simpl.
  - destruct (String.eqb_spec k' k); congruence.
  - destruct (String.eqb_spec k0 k') as [->|Hk]; simpl.
    + destruct (String.eqb_spec k' k); congruence.
    + destruct (String.eqb k0 k); auto.
Qed.

Lemma get_delete_eq m k : JSMap.get k (JSMap.delete k m) = None.
Proof.
  induction m as [|[k' v'] m IH]; simpl; auto.
  destruct (String.eqb k' k) eqn:E; simpl; auto.
  now rewrite E.
Qed.

Lemma get_delete_neq m k k' :
  k <> k' -> JSMap.get k (JSMap.delete k' m) = JSMap.get k m.
Proof.
  intros Hne. induction m as [|[k0 v0] m IH]; simpl; auto.
  destruct (String.eqb_spec k0 k') as [->|Hk]; simpl.
  - destruct (String.eqb_spec k' k); congruence.
  - now rewrite IH.
Qed.

(** What is found after a delete was there before. *)
Lemma get_delete_Some m k k' v :
  JSMap.get k (JSMap.delete k' m) = Some v -> JSMap.get k m = Some v.
Proof.
  destruct (String.eqb_spec k k') as [->|Hne].
  - now rewrite get_delete_eq.
  - now rewrite get_delete_neq.
Qed.

Lemma get_In m k v : JSMap.get k m = Some v -> In (k, v) m.
Proof.
  induction m as [|[k' v'] m IH]; simpl; [discriminate|].
  destruct (String.eqb_spec k' k) as [->|Hk]; intros H.
  - left. congruence.
  - right. auto.
Qed.

Lemma get_None_keys m k : JSMap.get k m = None <-> ~ In k (JSMap.keys m).
Proof.
  induction m as [|[k' v'] m IH]; simpl; [tauto|].
  destruct (String.eqb_spec k' k) as [->|Hk].
  - split; [discriminate | tauto].
  - rewrite IH. tauto.
Qed.

Lemma In_get m k v : JSMap.wf m -> In (k, v) m -> JSMap.get k m = Some v.
Proof.
  unfold JSMap.wf.
  induction m as [|[k' v'] m IH]; simpl; [tauto|].
  intros Hwf [Heq|Hin]; inversion Hwf as [|x l Hnotin Hnd]; subst.
  - inversion Heq; subst. now rewrite String.eqb_refl.
  - destruct (String.eqb_spec k' k) as [->|Hk]; auto.
    exfalso. apply Hnotin. change (In (fst (k, v)) (map fst m)).
    now apply in_map.
Qed.

(** Setting a key that is present keeps every key in its place. *)
Lemma keys_set_present m k v v0 :
  JSMap.get k m = Some v0 -> JSMap.keys (JSMap.set k v m) = JSMap.keys m.
Proof.
  induction m as [|[k' v'] m IH]; simpl; [discriminate|].
  destruct (String.eqb_spec k' k) as [->|Hk]; simpl; auto.
  intros H. now rewrite IH.
Qed.

(** Setting a key that is absent appends the entry. *)
Lemma set_absent m k v :
  JSMap.get k m = None -> JSMap.set k v m = m ++ [(k, v)].
Proof.
  induction m as [|[k' v'] m IH]; simpl; auto.
  destruct (String.eqb k' k); [discriminate|].
  intros H. now rewrite IH.
Qed.

Lemma wf_set m k v : JSMap.wf m -> JSMap.wf (JSMap.set k v m).
Proof.
  intros Hwf. destruct (JSMap.get k m) as [v0|] eqn:E.
  - unfold JSMap.wf. now rewrite (keys_set_present _ _ _ _ E).
  - rewrite (set_absent _ _ _ E). unfold JSMap.wf, JSMap.keys.
    rewrite map_app. simpl.
    apply NoDup_app; auto.
    + constructor; [simpl; tauto | constructor].
    + intros x Hx [<-|[]]. now apply get_None_keys in E.
Qed.

Lemma keys_delete m k :
  JSMap.keys (JSMap.delete k m)
  = filter (fun k' => negb (String.eqb k' k)) (JSMap.keys m).
Proof.
  induction m as [|[k' v'] m IH]; simpl; auto.
  destruct (String.eqb k' k); simpl; now rewrite IH.
Qed.

Lemma wf_delete m k : JSMap.wf m -> JSMap.wf (JSMap.delete k m).
Proof.
  unfold JSMap.wf. rewrite keys_delete. apply NoDup_filter.
Qed.

Lemma fold_set_fresh (l : list (string * V)) acc :
  NoDup (map fst (acc ++ l)) ->
  fold_left (fun m e => JSMap.set (fst e) (snd e) m) l acc = acc ++ l.
Proof.
  revert acc. induction l as [|[k v] l IH]; intros acc Hnd; simpl.
  - now rewrite app_nil_r.
  - rewrite set_absent.
    + rewrite IH; rewrite <- app_assoc; auto.
    + apply get_None_keys. unfold JSMap.keys.
      rewrite map_app in Hnd. simpl in Hnd.
      apply NoDup_remove_2 in Hnd. intros Hin. apply Hnd.
      apply in_or_app. now left.
Qed.

(** Copying a Map gives the same entries in the same order. *)
Lemma from_entries_wf m : JSMap.wf m -> JSMap.from_entries m = m.
Proof.
  intros Hwf. unfold JSMap.from_entries. now rewrite fold_set_fresh.
Qed.

End WithValue.
End JSMapFacts.

(** ** Facts about strings *)

Module JSStringFacts.

Lemma prefix_app (q s : string) :
  String.prefix q s = true <-> exists b, s = (q ++ b)%string.
Proof.
  revert s. induction q as [|c q IH]; intros s; simpl.
  - split; [intros _; now exists s | intros _; now destruct s].
  - destruct s as [|c' s]; simpl.
    + split; [discriminate | intros [b Hb]; discriminate].
    + destruct (Ascii.ascii_dec c c') as [->|Hne].
      * rewrite IH. split; intros [b Hb]; exists b; congruence.
      * split; [discriminate | intros [b Hb]; congruence].
Qed.

Lemma includes_unfold (s q : string) :
  JSString.includes s q =
  if String.prefix q s then true
  else match s with
       | EmptyString => false
       | String _ s' => JSString.includes s' q
       end.
Proof. destruct s; reflexivity. Qed.

Lemma includes_spec (s q : string) :
  JSString.includes s q = true <-> is_substring q s.
Proof.
  unfold is_substring.
  induction s as [|c s IH]; rewrite includes_unfold;
    match goal with |- context [String.prefix q ?x] =>
      destruct (String.prefix q x) eqn:E end.
  - split; [intros _ | reflexivity].
    apply prefix_app in E as [b Hb]. exists "", b. exact Hb.
  - split; [discriminate|]. intros ([|c a] & b & Hab); simpl in Hab.
    + assert (String.prefix q "" = true) by (apply prefix_app; eauto).
      congruence.
    + discriminate.
  - split; [intros _ | reflexivity].
    apply prefix_app in E as [b Hb]. exists "", b. exact Hb.
  - rewrite IH. split.
    + intros (a & b & ->). now exists (String c a), b.
    + intros ([|c' a] & b & Hab); simpl in Hab.
      * assert (String.prefix q (String c s) = true)
          by (apply prefix_app; eauto).
        congruence.
      * exists a, b. congruence.
Qed.

(** The empty string occurs in every string. *)
Lemma includes_empty (s : string) : JSString.includes s "" = true.
Proof. destruct s; reflexivity. Qed.

Lemma lower_char_idem (c : ascii) :
  JSString.lower_char (JSString.lower_char c) = JSString.lower_char c.
Proof.
  destruct c as [[] [] [] [] [] [] [] []]; reflexivity.
Qed.

Lemma toLowerCase_idem (s : string) :
  JSString.toLowerCase (JSString.toLowerCase s) = JSString.toLowerCase s.
Proof.
  induction s as [|c s IH]; simpl; [reflexivity|].
  now rewrite lower_char_idem, IH.
Qed.

End JSStringFacts.

(** ** Letter case *)

Lemma append_empty_r (s : string) : (s ++ "")%string = s.
Proof. induction s as [|c s IH]; simpl; [reflexivity | now rewrite IH]. Qed.

Lemma toLowerCase_append (a b : string) :
  JSString.toLowerCase (a ++ b)
  = (JSString.toLowerCase a ++ JSString.toLowerCase b)%string.
Proof. induction a as [|c a IH]; simpl; [reflexivity | now rewrite IH]. Qed.







(** ** searchFiles *)

Section Search.

Variable searchQuery : string.

Let push (results : list SearchResult) (e : string * INode) :=
  if JSString.includes (JSString.toLowerCase (node_name (snd e))) searchQuery
  then results ++ [mkSearchResult (snd e) (node_name (snd e))]
  else results.

Lemma searchFiles_loop_acc (es : list (string * INode)) acc :
  fold_left push es acc
  = acc ++ map (fun e => result_of (snd e)) (filter (matches searchQuery) es).
Proof.
  revert acc. induction es as [|e es IH]; intros acc; simpl.
  - now rewrite app_nil_r.
  - rewrite IH. unfold push, matches.
    destruct (JSString.includes _ searchQuery); simpl; auto.
    now rewrite <- app_assoc.
Qed.

(** The loop keeps, in table order, the entries that pass the test. *)
Lemma searchFiles_loop_filter (es : list (string * INode)) :
  searchFiles_loop searchQuery es
  = map (fun e => result_of (snd e)) (filter (matches searchQuery) es).
Proof.
  unfold searchFiles_loop. apply (searchFiles_loop_acc es []).
Qed.

Lemma matches_spec (e : string * INode) :
  matches searchQuery e = true
  <-> is_substring searchQuery (JSString.toLowerCase (node_name (snd e))).
Proof. apply JSStringFacts.includes_spec. Qed.

End Search.

(** The path of every result is the bare name of its node. *)
Lemma searchFiles_path_is_name query D results r :
  fst (searchFiles query D) = Fulfilled results ->
  In r results -> path r = node_name (result_node r).
Proof.
  unfold searchFiles. simpl. intros [= <-].
  rewrite searchFiles_loop_filter. intros Hin.
  apply in_map_iff in Hin as (e & <- & _). reflexivity.
Qed.

(** Two queries that differ only in the case of their letters give the
    same results. *)
Lemma searchFiles_query_case q1 q2 D :
  JSString.toLowerCase q1 = JSString.toLowerCase q2 ->
  searchFiles q1 D = searchFiles q2 D.
Proof. unfold searchFiles. now intros ->. Qed.

(** C3 (the code as it is): on the initial table [searchFiles("ton")]
    returns one result, the file button.tsx, and its [path] is the bare
    name "button.tsx", not the resolved path "src/components/button.tsx". *)
Theorem searchFiles_ton_path_is_bare_name :
  exists r,
    searchFiles "ton" DATA = (Fulfilled [r], DATA) /\
    result_node r = File "button.tsx" "button.tsx" /\
    path r = "button.tsx" /\
    path r <> "src/components/button.tsx".
Proof.
  eexists. split; [reflexivity|]. simpl. repeat split. discriminate.
Qed.



(** The query of C9 in capitals on the initial table: the four files whose
    names end in tsx are returned, though no name has a capital. *)
Example searchFiles_capitals :
  fst (searchFiles "TSX" DATA)
  = Fulfilled
      [ mkSearchResult (File "index.tsx" "index.tsx") "index.tsx";
        mkSearchResult (File "button.tsx" "button.tsx") "button.tsx";
        mkSearchResult (File "file-types.tsx" "file-types.tsx") "file-types.tsx";
        mkSearchResult (File "other-types.tsx" "other-types.tsx")
          "other-types.tsx" ].
Proof. reflexivity. Qed.

(** C10: with the empty query every entry matches, so [searchFiles("")]
    returns one result per entry of the table, in table order, and the
    number of results is the size of the table. *)
Theorem searchFiles_empty_query (D : Store) :
  exists results,
    searchFiles "" D = (Fulfilled results, D) /\
    map result_node results = map snd (JSMap.entries D) /\
    length results = JSMap.size D.
Proof.
  eexists. split; [reflexivity|].
  rewrite searchFiles_loop_filter. simpl.
  assert (Hall : filter (matches "") D = D).
  { induction D as [|e D' IH]; simpl; [reflexivity|].
    unfold matches at 1. rewrite JSStringFacts.includes_empty.
    now rewrite IH. }
  unfold JSMap.entries, JSMap.size. rewrite Hall, map_map. simpl.
  split; [reflexivity|]. now rewrite length_map.
Qed.

(** ** renameNode *)

Lemma set_name_fields newName node :
  node_name (set_name newName node) = newName /\
  node_id (set_name newName node) = node_id node /\
  node_type (set_name newName node) = node_type node /\
  node_children (set_name newName node) = node_children node.
Proof. destruct node; simpl; auto. Qed.

Lemma renameNode_present D nodeId newName node :
  JSMap.get nodeId D = Some node ->
  renameNode nodeId newName D
  = (Fulfilled (Some (set_name newName node)),
     JSMap.set nodeId (set_name newName node) D).
Proof. unfold renameNode. now intros ->. Qed.

Lemma renameNode_absent D nodeId newName :
  JSMap.get nodeId D = None ->
  renameNode nodeId newName D = (Fulfilled None, D).
Proof. unfold renameNode. now intros ->. Qed.

(** C5 (as stated, refuted): renaming an id that the initial table does not
    hold is not rejected; the promise is fulfilled with [undefined]. *)
Lemma renameNode_absent_not_rejected :
  JSMap.get "ghost.ts" DATA = None /\
  fst (renameNode "ghost.ts" "x.ts" DATA) = Fulfilled None /\
  ~ (exists reason, fst (renameNode "ghost.ts" "x.ts" DATA) = Rejected reason).
Proof.
  repeat split. intros [reason H]. discriminate H.
Qed.

(** C5 (amended): for every nodeId absent from the table, renameNode
    raises no NotFound nor any other error, its promise is not rejected,
    and the table is left as it was. *)
Theorem renameNode_absent_undefined (D : Store) (nodeId newName : string) :
  JSMap.get nodeId D = None ->
  (forall reason, fst (renameNode nodeId newName D) <> Rejected reason) /\
  snd (renameNode nodeId newName D) = D.
Proof.
  intros Habsent. rewrite (renameNode_absent D nodeId newName Habsent).
  split; [discriminate | reflexivity].
Qed.

Lemma renameNode_absent_undefined_witness :
  (forall reason, fst (renameNode "ghost.ts" "x.ts" DATA) <> Rejected reason) /\
  snd (renameNode "ghost.ts" "x.ts" DATA) = DATA.
Proof.
  apply (renameNode_absent_undefined DATA "ghost.ts" "x.ts"). reflexivity.
Defined.

(** C7: for every nodeId present in the table, renameNode changes the name
    of that node and nothing else: reading the id afterwards gives the node
    with name newName and with the id, type and children it had; every
    other entry is the one it was; the children list under every key, and
    the order of the keys, are the ones they were. *)
Theorem renameNode_only_name (D : Store) (nodeId newName : string) (node : INode) :
  JSMap.get nodeId D = Some node ->
  exists node' D',
    renameNode nodeId newName D = (Fulfilled (Some node'), D') /\
    readINode (Some nodeId) D' = (Fulfilled (Some node'), D') /\
    node_name node' = newName /\
    node_id node' = node_id node /\
    node_type node' = node_type node /\
    node_children node' = node_children node /\
    (forall k, k <> nodeId -> JSMap.get k D' = JSMap.get k D) /\
    (forall k, option_map node_children (JSMap.get k D')
               = option_map node_children (JSMap.get k D)) /\
    JSMap.keys D' = JSMap.keys D.
Proof.
  intros Hget. exists (set_name newName node), (JSMap.set nodeId (set_name newName node) D).
  destruct (set_name_fields newName node) as (Hn & Hi & Ht & Hc).
  split; [now apply renameNode_present|].
  split; [unfold readINode; now rewrite JSMapFacts.get_set_eq|].
  repeat (split; [assumption|]).
  split; [intros k Hk; now apply JSMapFacts.get_set_neq|].
  split; [|now apply JSMapFacts.keys_set_present with node].
  intros k. destruct (String.eqb_spec k nodeId) as [->|Hk].
  - rewrite JSMapFacts.get_set_eq, Hget. simpl. now rewrite Hc.
  - now rewrite JSMapFacts.get_set_neq.
Qed.

Lemma renameNode_only_name_witness :
  exists node' D',
    renameNode "index.tsx" "main.tsx" DATA = (Fulfilled (Some node'), D') /\
    readINode (Some "index.tsx") D' = (Fulfilled (Some node'), D') /\
    node_name node' = "main.tsx" /\
    node_id node' = "index.tsx" /\
    node_type node' = file /\
    node_children node' = None /\
    (forall k, k <> "index.tsx" -> JSMap.get k D' = JSMap.get k DATA) /\
    (forall k, option_map node_children (JSMap.get k D')
               = option_map node_children (JSMap.get k DATA)) /\
    JSMap.keys D' = JSMap.keys DATA.
Proof.
  apply (renameNode_only_name DATA "index.tsx" "main.tsx"
           (File "index.tsx" "index.tsx")).
  reflexivity.
Defined.

(** After the rename of the specification's example the root directory
    still lists index.tsx. *)
Example renameNode_index_still_listed :
  option_map node_children
    (JSMap.get "root" (snd (renameNode "index.tsx" "main.tsx" DATA)))
  = Some (Some ["index.tsx"; "components"; "types"]).
Proof. reflexivity. Qed.

(** ** createFile and createDirectory *)

(** With a parent that is absent or a file, [createFile] only stores the
    new node under the derived id. *)
Lemma createFile_no_directory D parentId fileName fileExtension :
  (JSMap.get parentId D = None \/
   exists i nm, JSMap.get parentId D = Some (File i nm)) ->
  let newId := (fileName ++ extension_of fileExtension)%string in
  createFile parentId fileName fileExtension D
  = (Fulfilled (File newId newId), JSMap.set newId (File newId newId) D).
Proof.
  intros Hparent newId. unfold createFile.
  fold newId.
  destruct (String.eqb_spec parentId newId) as [->|Hne].
  - now rewrite JSMapFacts.get_set_eq.
  - rewrite JSMapFacts.get_set_neq by assumption.
    destruct Hparent as [->|(i & nm & ->)]; reflexivity.
Qed.

(** The entry under the derived id after [createFile], whatever the
    parent. *)
Lemma createFile_stores D parentId fileName fileExtension :
  let newId := (fileName ++ extension_of fileExtension)%string in
  fst (createFile parentId fileName fileExtension D)
  = Fulfilled (File newId newId) /\
  JSMap.get newId (snd (createFile parentId fileName fileExtension D))
  = Some (File newId newId).
Proof.
  intros newId. unfold createFile.
  fold newId.
  destruct (String.eqb_spec parentId newId) as [->|Hne].
  - rewrite JSMapFacts.get_set_eq. simpl.
    now rewrite JSMapFacts.get_set_eq.
  - rewrite (JSMapFacts.get_set_neq D parentId newId) by assumption.
    destruct (JSMap.get parentId D) as [[i nm|i nm cs]|]; simpl;
      try (now rewrite JSMapFacts.get_set_eq).
    split; [reflexivity|].
    rewrite JSMapFacts.get_set_neq by congruence.
    now rewrite JSMapFacts.get_set_eq.
Qed.

(** The entry under the derived id after [createDirectory], whatever the
    parent: the directory lists itself when it is its own parent. *)
Lemma createDirectory_stores D parentId dirName :
  let newDir :=
    Directory dirName dirName
      (if String.eqb parentId dirName then [dirName] else []) in
  fst (createDirectory parentId dirName D) = Fulfilled newDir /\
  JSMap.get dirName (snd (createDirectory parentId dirName D)) = Some newDir.
Proof.
  intros newDir. unfold createDirectory, newDir.
  destruct (String.eqb_spec parentId dirName) as [->|Hne].
  - rewrite JSMapFacts.get_set_eq. simpl.
    now rewrite JSMapFacts.get_set_eq.
  - rewrite (JSMapFacts.get_set_neq D parentId dirName) by assumption.
    destruct (JSMap.get parentId D) as [[i nm|i nm cs]|]; simpl;
      try (now rewrite JSMapFacts.get_set_eq).
    split; [reflexivity|].
    rewrite JSMapFacts.get_set_neq by congruence.
    now rewrite JSMapFacts.get_set_eq.
Qed.

(** C2 (as stated, refuted): createFile("index.tsx", "x") names a file as
    parent and createFile("nowhere", "x") a parent that is absent; neither
    call is rejected and each leaves a new entry x.txt in the table. *)
Lemma createFile_bad_parent_changes_store :
  JSMap.get "index.tsx" DATA = Some (File "index.tsx" "index.tsx") /\
  JSMap.get "nowhere" DATA = None /\
  fst (createFile "index.tsx" "x" None DATA) = Fulfilled (File "x.txt" "x.txt") /\
  fst (createFile "nowhere" "x" None DATA) = Fulfilled (File "x.txt" "x.txt") /\
  snd (createFile "index.tsx" "x" None DATA) <> DATA /\
  snd (createFile "nowhere" "x" None DATA) <> DATA /\
  JSMap.get "x.txt" DATA = None /\
  JSMap.get "x.txt" (snd (createFile "index.tsx" "x" None DATA))
  = Some (File "x.txt" "x.txt") /\
  JSMap.get "x.txt" (snd (createFile "nowhere" "x" None DATA))
  = Some (File "x.txt" "x.txt").
Proof.
  repeat split; discriminate.
Qed.

(** C2 (amended): for every parentId that is absent from the table or
    resolves to a file, createFile is not rejected: it returns the new file
    node, whose id and name are fileName followed by the extension, and
    stores it under that id, as a new last entry when the id is new and in
    place of the entry there when the table holds the id; every entry under
    another id is left as it was, and no directory is added or given other
    children, so no link to the new id is made. *)
Theorem createFile_bad_parent_frame
    (D : Store) (parentId fileName : string) (fileExtension : option string) :
  (JSMap.get parentId D = None \/
   exists i nm, JSMap.get parentId D = Some (File i nm)) ->
  let newId := (fileName ++ extension_of fileExtension)%string in
  let D' := snd (createFile parentId fileName fileExtension D) in
  fst (createFile parentId fileName fileExtension D)
  = Fulfilled (File newId newId) /\
  JSMap.get newId D' = Some (File newId newId) /\
  (forall k, k <> newId -> JSMap.get k D' = JSMap.get k D) /\
  JSMap.keys D'
  = match JSMap.get newId D with
    | Some _ => JSMap.keys D
    | None => JSMap.keys D ++ [newId]
    end /\
  (forall k i nm children,
     JSMap.get k D' = Some (Directory i nm children) ->
     JSMap.get k D = Some (Directory i nm children)).
Proof.
  intros Hparent newId D'. subst D'.
  rewrite (createFile_no_directory D parentId fileName fileExtension Hparent).
  fold newId. simpl.
  split; [reflexivity|].
  split; [apply JSMapFacts.get_set_eq|].
  split; [intros k Hk; now apply JSMapFacts.get_set_neq|].
  split.
  - destruct (JSMap.get newId D) as [old|] eqn:Hold.
    + now apply JSMapFacts.keys_set_present with old.
    + rewrite JSMapFacts.set_absent by assumption.
      unfold JSMap.keys. now rewrite map_app.
  - intros k i nm children.
    destruct (String.eqb_spec k newId) as [->|Hk].
    + rewrite JSMapFacts.get_set_eq. discriminate.
    + now rewrite JSMapFacts.get_set_neq.
Qed.

Lemma createFile_bad_parent_frame_witness :
  fst (createFile "index.tsx" "x" None DATA) = Fulfilled (File "x.txt" "x.txt") /\
  JSMap.get "x.txt" (snd (createFile "index.tsx" "x" None DATA))
  = Some (File "x.txt" "x.txt") /\
  (forall k, k <> "x.txt" ->
     JSMap.get k (snd (createFile "index.tsx" "x" None DATA))
     = JSMap.get k DATA) /\
  JSMap.keys (snd (createFile "index.tsx" "x" None DATA))
  = JSMap.keys DATA ++ ["x.txt"] /\
  (forall k i nm children,
     JSMap.get k (snd (createFile "index.tsx" "x" None DATA))
     = Some (Directory i nm children) ->
     JSMap.get k DATA = Some (Directory i nm children)).
Proof.
  apply (createFile_bad_parent_frame DATA "index.tsx" "x" None).
  right. exists "index.tsx", "index.tsx". reflexivity.
Defined.

(** C2, where the derived id is taken: createFile("nowhere", "components",
    "") has no parent to link to, and still puts a file in the place of the
    directory components. *)
Example createFile_bad_parent_overwrites :
  JSMap.get "components"
    (snd (createFile "nowhere" "components" (Some "") DATA))
  = Some (File "components" "components").
Proof. reflexivity. Qed.

(** C6 (as stated, refuted): createDirectory("root", "components") and
    createFile("root", "components", "") derive the id "components", which
    the initial table holds; neither call is rejected, the id is not
    changed, and the directory that listed button.tsx is overwritten. *)
Lemma create_overwrites_existing_node :
  JSMap.get "components" DATA
  = Some (Directory "components" "components" ["button.tsx"]) /\
  fst (createDirectory "root" "components" DATA)
  = Fulfilled (Directory "components" "components" []) /\
  JSMap.get "components" (snd (createDirectory "root" "components" DATA))
  = Some (Directory "components" "components" []) /\
  fst (createFile "root" "components" (Some "") DATA)
  = Fulfilled (File "components" "components") /\
  JSMap.get "components" (snd (createFile "root" "components" (Some "") DATA))
  = Some (File "components" "components").
Proof. repeat split. Qed.

(** C6 (amended): createFile and createDirectory derive the id from the
    names (fileName followed by the extension; dirName) without looking for
    a collision: when the table already holds the derived id the call is
    not rejected, it returns the new node under that same id, and the entry
    the table held under the id is overwritten by the new node. *)
Theorem create_collision_overwrites
    (D : Store) (parentId name : string) (fileExtension : option string)
    (old : INode) :
  (JSMap.get (name ++ extension_of fileExtension)%string D = Some old ->
   let newId := (name ++ extension_of fileExtension)%string in
   fst (createFile parentId name fileExtension D)
   = Fulfilled (File newId newId) /\
   JSMap.get newId (snd (createFile parentId name fileExtension D))
   = Some (File newId newId)) /\
  (JSMap.get name D = Some old ->
   exists newDir,
     fst (createDirectory parentId name D) = Fulfilled newDir /\
     JSMap.get name (snd (createDirectory parentId name D)) = Some newDir /\
     node_id newDir = name /\
     node_name newDir = name /\
     node_type newDir = directory /\
     node_children newDir
     = Some (if String.eqb parentId name then [name] else [])).
Proof.
  split.
  - intros _. apply createFile_stores.
  - intros _. eexists.
    split; [apply createDirectory_stores|].
    split; [apply createDirectory_stores|].
    repeat split.
Qed.

Lemma create_collision_overwrites_witness :
  (fst (createFile "root" "components" (Some "") DATA)
   = Fulfilled (File "components" "components") /\
   JSMap.get "components" (snd (createFile "root" "components" (Some "") DATA))
   = Some (File "components" "components")) /\
  (exists newDir,
     fst (createDirectory "root" "components" DATA) = Fulfilled newDir /\
     JSMap.get "components" (snd (createDirectory "root" "components" DATA))
     = Some newDir /\
     node_id newDir = "components" /\
     node_name newDir = "components" /\
     node_type newDir = directory /\
     node_children newDir = Some []).
Proof.
  destruct (create_collision_overwrites DATA "root" "components" (Some "")
              (Directory "components" "components" ["button.tsx"]))
    as [HcreateFile HcreateDirectory].
  split.
  - apply HcreateFile. reflexivity.
  - apply HcreateDirectory. reflexivity.
Defined.

(** ** resetFileSystem and getAllNodes *)

Lemma DATA_is_initialData : DATA = initialData.
Proof. reflexivity. Qed.

Lemma DATA_wf : JSMap.wf DATA.
Proof.
  unfold JSMap.wf. simpl.
  repeat (constructor; [simpl; intuition discriminate|]). constructor.
Qed.

(** Whatever the table holds, a reset leaves the initial entries. *)
Lemma resetFileSystem_any (D : Store) :
  resetFileSystem D = (Fulfilled tt, DATA).
Proof. reflexivity. Qed.

(** A copy of a table with unique keys has the same entries. *)
Lemma getAllNodes_copy (D : Store) :
  JSMap.wf D -> getAllNodes D = (Fulfilled D, D).
Proof.
  intros Hwf. unfold getAllNodes, JSMap.entries.
  now rewrite JSMapFacts.from_entries_wf.
Qed.

(** C8: from every table that create, rename and delete calls reach from
    the initial one, resetFileSystem() followed by getAllNodes() returns the
    fixed initial tree: root (named src) listing index.tsx, components and
    types, components listing button.tsx, types listing file-types.tsx and
    other-types.tsx, and the four files. *)
Theorem reset_then_getAllNodes_is_seed (D : Store) :
  reachable D ->
  fst (getAllNodes (snd (resetFileSystem D)))
  = Fulfilled
      [ ("root", Directory "root" "src" ["index.tsx"; "components"; "types"]);
        ("index.tsx", File "index.tsx" "index.tsx");
        ("components", Directory "components" "components" ["button.tsx"]);
        ("button.tsx", File "button.tsx" "button.tsx");
        ("types", Directory "types" "types" ["file-types.tsx"; "other-types.tsx"]);
        ("file-types.tsx", File "file-types.tsx" "file-types.tsx");
        ("other-types.tsx", File "other-types.tsx" "other-types.tsx") ].
Proof.
  intros _. rewrite resetFileSystem_any. reflexivity.
Qed.

Lemma reset_then_getAllNodes_is_seed_witness :
  fst (getAllNodes (snd (resetFileSystem
    (snd (renameNode "types" "kinds"
      (snd (createFile "root" "notes" None DATA)))))))
  = Fulfilled DATA.
Proof.
  apply (reset_then_getAllNodes_is_seed
           (snd (renameNode "types" "kinds"
             (snd (createFile "root" "notes" None DATA))))).
  apply reach_renameNode, reach_createFile, reach_init.
Defined.

(** ** deleteNode *)

Lemma sub_store_refl D : sub_store D D.
Proof. now intros k v. Qed.

Lemma sub_store_trans D1 D2 D3 :
  sub_store D1 D2 -> sub_store D2 D3 -> sub_store D1 D3.
Proof. intros H12 H23 k v H. auto. Qed.

Lemma sub_store_delete D k : sub_store (JSMap.delete k D) D.
Proof. intros k' v. apply JSMapFacts.get_delete_Some. Qed.

Lemma sub_store_None D' D k :
  sub_store D' D -> JSMap.get k D = None -> JSMap.get k D' = None.
Proof.
  intros Hsub Hk. destruct (JSMap.get k D') as [v|] eqn:E; [|reflexivity].
  apply Hsub in E. congruence.
Qed.

Lemma ranked_sub_store rank D' D :
  sub_store D' D -> ranked rank D -> ranked rank D'.
Proof.
  intros Hsub Hr k i nm children c Hget. apply (Hr k i nm). now apply Hsub.
Qed.

Section Loop.

Variable f : string -> Store -> option (Promise bool * Store).

(** A loop whose body returns more often returns more often. *)
Lemma for_each_child_mono g children D r :
  (forall c D0 r0, In c children -> f c D0 = Some r0 -> g c D0 = Some r0) ->
  for_each_child f children D = Some r ->
  for_each_child g children D = Some r.
Proof.
  revert D. induction children as [|c cs IH]; intros D Hfg; simpl; auto.
  destruct (f c D) as [[p D1]|] eqn:E; [|discriminate].
  rewrite (Hfg c D _ (or_introl eq_refl) E).
  destruct p; auto. apply IH. intros c0 D0 r0 Hin. apply Hfg. now right.
Qed.

(** A loop over a body that fulfils, only removes entries and removes the
    child it is given, fulfils, only removes entries and removes every
    child. *)
Lemma for_each_child_inv children D p D' :
  (forall c D0 p0 D1, In c children -> f c D0 = Some (p0, D1) ->
     (exists b, p0 = Fulfilled b) /\ sub_store D1 D0 /\ JSMap.get c D1 = None) ->
  for_each_child f children D = Some (p, D') ->
  p = Fulfilled tt /\ sub_store D' D /\
  forall c, In c children -> JSMap.get c D' = None.
Proof.
  revert D. induction children as [|c cs IH]; intros D Hf; simpl.
  - intros [= <- <-]. split; [reflexivity|].
    split; [apply sub_store_refl | tauto].
  - destruct (f c D) as [[p0 D1]|] eqn:E; [|discriminate].
    destruct (Hf c D p0 D1 (or_introl eq_refl) E) as ([b ->] & Hsub & Hc).
    intros Hloop. apply IH in Hloop as (Hp & Hsub' & Hcs).
    + split; [assumption|]. split; [eapply sub_store_trans; eauto|].
      intros c0 [<-|Hin]; [|auto]. eapply sub_store_None; eauto.
    + intros c0 D0 p1 D2 Hin. apply Hf. now right.
Qed.

End Loop.

(** More room does not change the outcome of [deleteNode]. *)
Lemma deleteNode_mono fuel nodeId D r :
  deleteNode fuel nodeId D = Some r ->
  forall fuel', fuel <= fuel' -> deleteNode fuel' nodeId D = Some r.
Proof.
  revert nodeId D r. induction fuel as [|fuel IH]; intros nodeId D r;
    [discriminate|].
  intros Hrun [|fuel'] Hle; [lia|]. simpl in *.
  destruct (JSMap.get nodeId D) as [[i nm|i nm children]|]; auto.
  destruct (0 <? length children)%nat; auto.
  destruct (for_each_child (deleteNode fuel) children D) as [r1|] eqn:E;
    [|discriminate].
  rewrite (for_each_child_mono (deleteNode fuel) (deleteNode fuel')
             children D r1); auto.
  intros c D0 r0 _ H0. apply (IH c D0 r0 H0). lia.
Qed.

(** What [deleteNode] does when it returns: the promise is fulfilled, with
    [true] exactly when the id was in the table; entries are only removed,
    never added or altered; the id is no longer in the table. *)
Lemma deleteNode_inv fuel nodeId D p D' :
  deleteNode fuel nodeId D = Some (p, D') ->
  (exists b, p = Fulfilled b /\ (b = true <-> JSMap.get nodeId D <> None)) /\
  sub_store D' D /\
  JSMap.get nodeId D' = None.
Proof.
  revert nodeId D p D'. induction fuel as [|fuel IH]; intros nodeId D p D';
    [discriminate|].
  simpl. destruct (JSMap.get nodeId D) as [node|] eqn:Hget.
  - assert (Hdone : forall D1,
              sub_store D1 D ->
              (exists b, Fulfilled true = Fulfilled b /\
                         (b = true <-> Some node <> None)) /\
              sub_store (JSMap.delete nodeId D1) D /\
              JSMap.get nodeId (JSMap.delete nodeId D1) = None).
    { intros D1 Hsub. split; [exists true; split; [reflexivity|]|].
      - split; [discriminate | reflexivity].
      - split; [|apply JSMapFacts.get_delete_eq].
        eapply sub_store_trans; [apply sub_store_delete | exact Hsub]. }
    destruct node as [i nm|i nm children].
    + intros [= <- <-]. apply Hdone, sub_store_refl.
    + destruct (0 <? length children)%nat.
      * destruct (for_each_child (deleteNode fuel) children D)
          as [[p1 D1]|] eqn:E; [|discriminate].
        apply for_each_child_inv in E as (-> & Hsub & _).
        -- intros [= <- <-]. now apply Hdone.
        -- intros c D0 p0 D2 _ H0. apply IH in H0 as ((b & Hb & _) & ? & ?).
           subst p0. eauto.
      * intros [= <- <-]. apply Hdone, sub_store_refl.
  - intros [= <- <-]. split; [exists false; split; [reflexivity|]|].
    + split; [discriminate | congruence].
    + split; [apply sub_store_refl | assumption].
Qed.

Lemma rankedb_ranked rank D : rankedb rank D = true -> ranked rank D.
Proof.
  unfold rankedb. rewrite forallb_forall.
  intros Hall k i nm children c Hget Hin.
  apply JSMapFacts.get_In, Hall in Hget. simpl in Hget.
  rewrite forallb_forall in Hget. now apply Nat.ltb_lt, Hget.
Qed.

Lemma deleteNode_children_return rank fuel children D :
  (forall c D0, In c children -> ranked rank D0 ->
     exists r, deleteNode fuel c D0 = Some r) ->
  ranked rank D ->
  exists r, for_each_child (deleteNode fuel) children D = Some r.
Proof.
  revert D. induction children as [|c cs IH]; intros D Hbody Hr; simpl.
  - eauto.
  - destruct (Hbody c D (or_introl eq_refl) Hr) as [[p D1] E]. rewrite E.
    apply deleteNode_inv in E as ((b & -> & _) & Hsub & _).
    apply IH.
    + intros c0 D0 Hin. apply Hbody. now right.
    + eapply ranked_sub_store; eauto.
Qed.

Lemma deleteNode_S fuel nodeId D :
  deleteNode (S fuel) nodeId D =
  match JSMap.get nodeId D with
  | None => Some (Fulfilled false, D)
  | Some node =>
      match
        match node with
        | Directory _ _ children =>
            if (0 <? length children)%nat
            then for_each_child (deleteNode fuel) children D
            else Some (Fulfilled tt, D)
        | File _ _ => Some (Fulfilled tt, D)
        end
      with
      | None => None
      | Some (Rejected r, D1) => Some (Rejected r, D1)
      | Some (Fulfilled _, D1) => Some (Fulfilled true, JSMap.delete nodeId D1)
      end
  end.
Proof. reflexivity. Qed.

Lemma deleteNode_returns_within rank n :
  forall nodeId D,
    rank nodeId <= n -> ranked rank D ->
    exists r, deleteNode (S n) nodeId D = Some r.
Proof.
  induction n as [|n IH]; intros nodeId D Hle Hr; rewrite deleteNode_S;
    (destruct (JSMap.get nodeId D) as [[i nm|i nm children]|] eqn:Hget;
     [eauto | | eauto]);
    (destruct (0 <? length children)%nat eqn:Hlen; [|eauto]).
  - destruct children as [|c cs]; [discriminate|].
    pose proof (Hr nodeId i nm (c :: cs) c Hget (or_introl eq_refl)). lia.
  - destruct (deleteNode_children_return rank (S n) children D)
      as [[[b|reason] D1] E]; auto; [|rewrite E; eauto..].
    intros c D0 Hin Hr0. apply IH; [|assumption].
    pose proof (Hr nodeId i nm children c Hget Hin). lia.
Qed.

(** Where the children relation descends along a rank, the cascade of
    [deleteNode] completes: room above the rank of the id is enough. *)
Lemma deleteNode_returns rank nodeId D :
  ranked rank D ->
  exists p D', deleteNode (S (rank nodeId)) nodeId D = Some (p, D').
Proof.
  intros Hr. destruct (deleteNode_returns_within rank (rank nodeId) nodeId D)
    as [[p D'] E]; eauto.
Qed.

(** The deleted directory stays in the children list of a parent that
    survives: [deleteNode] alters no entry that it leaves in the table. *)
Lemma deleteNode_keeps_surviving_entries fuel nodeId D p D' k v :
  deleteNode fuel nodeId D = Some (p, D') ->
  JSMap.get k D' = Some v -> JSMap.get k D = Some v.
Proof.
  intros Hrun. apply deleteNode_inv in Hrun as (_ & Hsub & _). apply Hsub.
Qed.

(** C1 (the code as it is): on the initial table [deleteNode("components")]
    returns true and removes components and button.tsx from the table, but
    the children list of root is the one it was and still contains
    "components". *)
Theorem deleteNode_components_leaves_parent_link :
  exists D',
    deleteNode 2 "components" DATA = Some (Fulfilled true, D') /\
    readINode (Some "components") D' = (Fulfilled None, D') /\
    readINode (Some "button.tsx") D' = (Fulfilled None, D') /\
    JSMap.get "root" D'
    = Some (Directory "root" "src" ["index.tsx"; "components"; "types"]) /\
    In "components" ["index.tsx"; "components"; "types"].
Proof.
  eexists. split; [reflexivity|]. repeat split. simpl. tauto.
Qed.

(** C4 (as stated, refuted): on the initial table [deleteNode("root")] is
    not rejected; it returns true, and root, with every other node, is gone
    from the table. *)
Lemma deleteNode_root_removes_root :
  deleteNode 3 "root" DATA = Some (Fulfilled true, []) /\
  JSMap.get "root" DATA
  = Some (Directory "root" "src" ["index.tsx"; "components"; "types"]) /\
  (forall D', deleteNode 3 "root" DATA = Some (Fulfilled true, D') ->
              JSMap.get "root" D' = None) /\
  ~ (exists D', deleteNode 3 "root" DATA
                = Some (Rejected "InvalidArgument", D')).
Proof.
  split; [reflexivity|]. split; [reflexivity|]. split.
  - intros D' [= <-]. reflexivity.
  - intros [D' H]. discriminate H.
Qed.

(** C4 (amended): deleteNode("root") is not rejected and root is not kept.
    On every table that holds root, a call that fulfils returns true, root
    is no longer in the table afterwards, and no entry was added or
    altered.  The call does fulfil on every table in which no directory
    hangs below itself (the children relation descends along a rank) when
    the call stack has room for the nesting of the cascade, more nested
    calls than the rank of root; so it does on the initial tree, which it
    empties. *)
Theorem deleteNode_root_deletes
    (rank : string -> nat) (D : Store) (rootNode : INode) :
  JSMap.get "root" D = Some rootNode ->
  (forall fuel p D',
     deleteNode fuel "root" D = Some (p, D') ->
     p = Fulfilled true /\ JSMap.get "root" D' = None /\ sub_store D' D) /\
  (ranked rank D ->
   exists D',
     forall room, rank "root" < room ->
                  deleteNode room "root" D = Some (Fulfilled true, D')).
Proof.
  intros Hroot.
  assert (Hany : forall fuel p D',
             deleteNode fuel "root" D = Some (p, D') ->
             p = Fulfilled true /\ JSMap.get "root" D' = None /\ sub_store D' D).
  { intros fuel p D' E.
    pose proof (deleteNode_inv _ _ _ _ _ E) as ((b & -> & Hb) & Hsub & Hgone).
    assert (b = true) as -> by (apply Hb; congruence). auto. }
  split; [exact Hany|].
  intros Hr. destruct (deleteNode_returns rank "root" D Hr) as (p & D' & E).
  destruct (Hany _ _ _ E) as (-> & _).
  exists D'. intros fuel Hfuel. apply (deleteNode_mono _ _ _ _ E). lia.
Qed.

Lemma deleteNode_root_deletes_witness :
  (forall fuel p D',
     deleteNode fuel "root" DATA = Some (p, D') ->
     p = Fulfilled true /\ JSMap.get "root" D' = None /\ sub_store D' DATA) /\
  exists D',
    forall room, seed_rank "root" < room ->
                 deleteNode room "root" DATA = Some (Fulfilled true, D').
Proof.
  destruct (deleteNode_root_deletes seed_rank DATA
              (Directory "root" "src" ["index.tsx"; "components"; "types"]))
    as [Hany Hranked].
  - reflexivity.
  - split; [exact Hany|].
    apply Hranked. apply rankedb_ranked. vm_compute. reflexivity.
Defined.

(** ** The cascade of deleteNode *)

Lemma for_each_child_preserves (P : Store -> Prop) f children D p D' :
  (forall c D0 p0 D1, f c D0 = Some (p0, D1) -> P D0 -> P D1) ->
  P D ->
  for_each_child f children D = Some (p, D') ->
  P D'.
Proof.
  intros Hf. revert D. induction children as [|c cs IH]; intros D HP; simpl.
  - now intros [= _ <-].
  - destruct (f c D) as [[[b|reason] D1]|] eqn:E; try discriminate.
    + apply IH. eapply Hf; eauto.
    + intros [= _ <-]. eapply Hf; eauto.
Qed.

Lemma cascaded_refl D : cascaded D D.
Proof.
  split; [apply sub_store_refl|]. intros k i nm children c Hk Hk'. congruence.
Qed.

(** Removing a key whose children are all gone keeps the closure. *)
Lemma cascaded_delete D0 D nodeId node :
  cascaded D0 D ->
  JSMap.get nodeId D = Some node ->
  (forall children c, node_children node = Some children -> In c children ->
                      JSMap.get c D = None) ->
  cascaded D0 (JSMap.delete nodeId D).
Proof.
  intros [Hsub Hclosed] Hget Hchildren. split.
  - eapply sub_store_trans; [apply sub_store_delete | exact Hsub].
  - intros k i nm children c Hk0 Hk Hin.
    apply (sub_store_None _ D); [apply sub_store_delete|].
    destruct (String.eqb_spec k nodeId) as [->|Hne].
    + apply Hsub in Hget. rewrite Hk0 in Hget. injection Hget as <-.
      now apply (Hchildren children).
    + rewrite JSMapFacts.get_delete_neq in Hk by assumption.
      now apply (Hclosed k i nm children).
Qed.

Lemma deleteNode_cascaded D0 fuel :
  forall nodeId D p D',
    deleteNode fuel nodeId D = Some (p, D') ->
    cascaded D0 D -> cascaded D0 D'.
Proof.
  induction fuel as [|fuel IH]; intros nodeId D p D'; [discriminate|].
  rewrite deleteNode_S.
  destruct (JSMap.get nodeId D) as [[i nm|i nm children]|] eqn:Hget.
  - intros [= _ <-] Hc. apply (cascaded_delete D0 D nodeId _ Hc Hget).
    discriminate.
  - destruct (0 <? length children)%nat eqn:Hlen.
    + destruct (for_each_child (deleteNode fuel) children D)
        as [[[[]|reason] D1]|] eqn:E; try discriminate.
      * intros [= _ <-] Hc.
        pose proof (for_each_child_preserves (cascaded D0) _ _ _ _ _ IH Hc E)
          as Hc1.
        apply for_each_child_inv in E as (_ & Hsub & Hgone).
        -- destruct (JSMap.get nodeId D1) as [node1|] eqn:Hget1.
           ++ apply (cascaded_delete D0 D1 nodeId node1 Hc1 Hget1).
              apply Hsub in Hget1. rewrite Hget in Hget1.
              injection Hget1 as <-. simpl. intros cs c [= <-]. apply Hgone.
           ++ replace (JSMap.delete nodeId D1) with D1; [assumption|].
              clear -Hget1. induction D1 as [|[k v] D1 IHD]; simpl in *; auto.
              destruct (String.eqb k nodeId); [discriminate|]. simpl.
              now rewrite <- IHD.
        -- intros c Dc pc Dc' _ Hrun.
           apply deleteNode_inv in Hrun as ((b & -> & _) & ? & ?). eauto.
      * intros [= _ <-] Hc.
        apply (for_each_child_preserves (cascaded D0) _ _ _ _ _ IH Hc E).
    + intros [= _ <-] Hc. apply (cascaded_delete D0 D nodeId _ Hc Hget).
      simpl. intros cs c [= <-] Hin.
      destruct children; [destruct Hin | discriminate].
  - now intros [= _ <-].
Qed.

(** When [deleteNode] returns, the id and everything that hung below it
    are gone from the table. *)
Lemma deleteNode_removes_descendants fuel nodeId D p D' x :
  deleteNode fuel nodeId D = Some (p, D') ->
  descendant D nodeId x ->
  JSMap.get x D' = None.
Proof.
  intros Hrun Hdesc.
  pose proof (deleteNode_cascaded D fuel nodeId D p D' Hrun (cascaded_refl D))
    as [_ Hclosed].
  apply deleteNode_inv in Hrun as (_ & _ & Hgone).
  induction Hdesc as [k i nm children x Hk Hin|k i nm children c x Hk Hin _ IH].
  - now apply (Hclosed k i nm children).
  - apply IH. now apply (Hclosed k i nm children).
Qed.

(** ** Invariants of the reachable tables *)

Lemma keyed_by_id_set D k v :
  keyed_by_id D -> node_id v = k -> keyed_by_id (JSMap.set k v D).
Proof.
  intros HD Hv k' v'. destruct (String.eqb_spec k' k) as [->|Hne].
  - rewrite JSMapFacts.get_set_eq. now intros [= <-].
  - rewrite JSMapFacts.get_set_neq by assumption. apply HD.
Qed.

Lemma keyed_by_id_sub_store D' D :
  sub_store D' D -> keyed_by_id D -> keyed_by_id D'.
Proof. intros Hsub HD k v Hget. apply HD. now apply Hsub. Qed.

Lemma deleteNode_wf fuel :
  forall nodeId D p D',
    deleteNode fuel nodeId D = Some (p, D') -> JSMap.wf D -> JSMap.wf D'.
Proof.
  induction fuel as [|fuel IH]; intros nodeId D p D'; [discriminate|].
  rewrite deleteNode_S.
  destruct (JSMap.get nodeId D) as [[i nm|i nm children]|].
  - intros [= _ <-]. apply JSMapFacts.wf_delete.
  - destruct (0 <? length children)%nat.
    + destruct (for_each_child (deleteNode fuel) children D)
        as [[[[]|reason] D1]|] eqn:E; try discriminate;
        intros [= _ <-] Hwf;
        pose proof (for_each_child_preserves (@JSMap.wf INode) _ _ _ _ _ IH Hwf E);
        [now apply JSMapFacts.wf_delete | assumption].
    + intros [= _ <-]. apply JSMapFacts.wf_delete.
  - now intros [= _ <-].
Qed.

(** In every reachable table the keys are unique and every node is stored
    under its own id. *)
Lemma reachable_invariant D :
  reachable D -> JSMap.wf D /\ keyed_by_id D.
Proof.
  induction 1 as [|D parentId fileName fileExtension _ [Hwf Hid]
                  |D parentId dirName _ [Hwf Hid]
                  |D nodeId newName _ [Hwf Hid]
                  |D fuel nodeId p D' _ [Hwf Hid] Hrun
                  |D _ _].
  - split; [apply DATA_wf|].
    intros k v Hget. apply JSMapFacts.get_In in Hget. simpl in Hget.
    repeat (destruct Hget as [[= <- <-]|Hget]; [reflexivity|]).
    destruct Hget.
  - unfold createFile.
    set (newId := (fileName ++ _)%string).
    assert (Hwf1 := JSMapFacts.wf_set D newId (File newId newId) Hwf).
    assert (Hid1 := keyed_by_id_set D newId (File newId newId) Hid eq_refl).
    destruct (JSMap.get parentId _) as [[i nm|i nm children]|] eqn:Hp; simpl;
      auto.
    split; [now apply JSMapFacts.wf_set|].
    apply keyed_by_id_set; [assumption|]. now apply Hid1 in Hp.
  - unfold createDirectory.
    assert (Hwf1 := JSMapFacts.wf_set D dirName (Directory dirName dirName []) Hwf).
    assert (Hid1 := keyed_by_id_set D dirName (Directory dirName dirName [])
                      Hid eq_refl).
    destruct (JSMap.get parentId _) as [[i nm|i nm children]|] eqn:Hp; simpl;
      auto.
    split; [now apply JSMapFacts.wf_set|].
    apply keyed_by_id_set; [assumption|]. now apply Hid1 in Hp.
  - unfold renameNode. destruct (JSMap.get nodeId D) as [node|] eqn:Hn; simpl;
      auto.
    split; [now apply JSMapFacts.wf_set|].
    apply keyed_by_id_set; [assumption|].
    destruct (set_name_fields newName node) as (_ & -> & _). now apply Hid.
  - split; [eapply deleteNode_wf; eauto|].
    apply deleteNode_inv in Hrun as (_ & Hsub & _).
    eapply keyed_by_id_sub_store; eauto.
  - rewrite resetFileSystem_any. simpl. split; [apply DATA_wf|].
    intros k v Hget. apply JSMapFacts.get_In in Hget. simpl in Hget.
    repeat (destruct Hget as [[= <- <-]|Hget]; [reflexivity|]).
    destruct Hget.
Qed.

(** [getAllNodes()] on a reachable table returns the entries of the
    table. *)
Lemma getAllNodes_reachable D :
  reachable D -> getAllNodes D = (Fulfilled D, D).
Proof. intros H. apply getAllNodes_copy. now apply reachable_invariant. Qed.

(** A reachable table on which the cascade of [deleteNode] has no end:
    after createDirectory("loop", "loop") the directory lists itself, and
    no amount of room completes the cascade. *)
Lemma deleteNode_self_listed_has_no_outcome fuel :
  deleteNode fuel "loop" (snd (createDirectory "loop" "loop" DATA)) = None.
Proof.
  induction fuel as [|fuel IH]; [reflexivity|].
  rewrite deleteNode_S.
  change (JSMap.get "loop" (snd (createDirectory "loop" "loop" DATA)))
    with (Some (Directory "loop" "loop" ["loop"])).
  cbn [Nat.ltb Nat.leb length for_each_child]. now rewrite IH.
Qed.

(** ** No operation rejects *)

(** The module has no [throw]: the promise of every operation that returns
    is fulfilled. *)
Lemma no_operation_rejects (D : Store) :
  (forall id, exists r, fst (readINode id D) = Fulfilled r) /\
  (forall query, exists r, fst (searchFiles query D) = Fulfilled r) /\
  (forall parentId fileName fileExtension,
     exists r, fst (createFile parentId fileName fileExtension D) = Fulfilled r) /\
  (forall parentId dirName,
     exists r, fst (createDirectory parentId dirName D) = Fulfilled r) /\
  (forall nodeId newName,
     exists r, fst (renameNode nodeId newName D) = Fulfilled r) /\
  (forall fuel nodeId p D',
     deleteNode fuel nodeId D = Some (p, D') -> exists r, p = Fulfilled r) /\
  (exists r, fst (getAllNodes D) = Fulfilled r) /\
  (exists r, fst (resetFileSystem D) = Fulfilled r).
Proof.
  repeat split; intros; try (eexists; reflexivity).
  - eexists. apply createFile_stores.
  - eexists. apply createDirectory_stores.
  - unfold renameNode. destruct (JSMap.get nodeId D); eexists; reflexivity.
  - match goal with H : deleteNode _ _ _ = _ |- _ =>
      apply deleteNode_inv in H as ((b & -> & _) & _) end.
    eauto.
Qed.

(** * Further properties of the store *)

(** ** More facts about the Map *)

Lemma keys_set {V : Type} (m : JSMap.t V) k v :
  JSMap.keys (JSMap.set k v m)
  = match JSMap.get k m with
    | Some _ => JSMap.keys m
    | None => JSMap.keys m ++ [k]
    end.
Proof.
  destruct (JSMap.get k m) as [v0|] eqn:E.
  - now apply JSMapFacts.keys_set_present with v0.
  - rewrite JSMapFacts.set_absent by assumption.
    unfold JSMap.keys. now rewrite map_app.
Qed.

Lemma set_get_same {V : Type} (m : JSMap.t V) k v :
  JSMap.get k m = Some v -> JSMap.set k v m = m.
Proof.
  induction m as [|[k' v'] m IH]; simpl; [discriminate|].
  destruct (String.eqb_spec k' k) as [->|Hne].
  - now intros [= ->].
  - intros H. now rewrite IH.
Qed.

Lemma set_set {V : Type} (m : JSMap.t V) k v v' :
  JSMap.set k v (JSMap.set k v' m) = JSMap.set k v m.
Proof.
  induction m as [|[k0 v0] m IH]; simpl.
  - now rewrite String.eqb_refl.
  - destruct (String.eqb k0 k) eqn:E; simpl.
    + now rewrite String.eqb_refl.
    + now rewrite E, IH.
Qed.

Lemma get_set_not_None {V : Type} (m : JSMap.t V) k v c :
  JSMap.get c m <> None -> JSMap.get c (JSMap.set k v m) <> None.
Proof.
  destruct (String.eqb_spec c k) as [->|Hne].
  - now rewrite JSMapFacts.get_set_eq.
  - now rewrite JSMapFacts.get_set_neq.
Qed.

Lemma delete_absent {V : Type} (m : JSMap.t V) k :
  JSMap.get k m = None -> JSMap.delete k m = m.
Proof.
  induction m as [|[k' v'] m IH]; simpl; [reflexivity|].
  destruct (String.eqb k' k); [discriminate|]. simpl.
  intros H. now rewrite IH.
Qed.

(** ** createFile and createDirectory under a directory *)

(** createFile under an existing directory whose id is not the derived id:
    the new file can be read back under the derived id, the parent lists
    it last, after the children it had, and no other entry changes. *)
Theorem createFile_then_read
    (D : Store) (parentId fileName : string) (fileExtension : option string)
    (pid pname : string) (pchildren : list string) :
  JSMap.get parentId D = Some (Directory pid pname pchildren) ->
  parentId <> (fileName ++ extension_of fileExtension)%string ->
  let newId := (fileName ++ extension_of fileExtension)%string in
  let D' := snd (createFile parentId fileName fileExtension D) in
  fst (createFile parentId fileName fileExtension D)
  = Fulfilled (File newId newId) /\
  readINode (Some newId) D' = (Fulfilled (Some (File newId newId)), D') /\
  JSMap.get parentId D' = Some (Directory pid pname (pchildren ++ [newId])) /\
  (forall k, k <> newId -> k <> parentId -> JSMap.get k D' = JSMap.get k D).
Proof.
  intros Hparent Hne newId D'. subst D'. unfold createFile. fold newId.
  rewrite (JSMapFacts.get_set_neq D parentId newId) by assumption.
  rewrite Hparent. simpl. unfold readINode.
  rewrite JSMapFacts.get_set_neq by (intros E; apply Hne; now symmetry).
  rewrite !JSMapFacts.get_set_eq.
  repeat split. intros k Hk Hkp. now rewrite !JSMapFacts.get_set_neq.
Qed.

Lemma createFile_then_read_witness :
  let D' := snd (createFile "root" "new" (Some ".md") DATA) in
  fst (createFile "root" "new" (Some ".md") DATA)
  = Fulfilled (File "new.md" "new.md") /\
  readINode (Some "new.md") D' = (Fulfilled (Some (File "new.md" "new.md")), D') /\
  JSMap.get "root" D'
  = Some (Directory "root" "src" ["index.tsx"; "components"; "types"; "new.md"]) /\
  (forall k, k <> "new.md" -> k <> "root" -> JSMap.get k D' = JSMap.get k DATA).
Proof.
  apply (createFile_then_read DATA "root" "new" (Some ".md") "root" "src"
           ["index.tsx"; "components"; "types"]).
  - reflexivity.
  - discriminate.
Defined.

(** createDirectory under an existing directory other than itself: the new
    directory, with no children, can be read back under dirName, the parent
    lists it last, and no other entry changes. *)
Theorem createDirectory_then_read
    (D : Store) (parentId dirName : string)
    (pid pname : string) (pchildren : list string) :
  JSMap.get parentId D = Some (Directory pid pname pchildren) ->
  parentId <> dirName ->
  let D' := snd (createDirectory parentId dirName D) in
  fst (createDirectory parentId dirName D)
  = Fulfilled (Directory dirName dirName []) /\
  readINode (Some dirName) D'
  = (Fulfilled (Some (Directory dirName dirName [])), D') /\
  JSMap.get parentId D' = Some (Directory pid pname (pchildren ++ [dirName])) /\
  (forall k, k <> dirName -> k <> parentId -> JSMap.get k D' = JSMap.get k D).
Proof.
  intros Hparent Hne D'. subst D'. unfold createDirectory.
  rewrite (JSMapFacts.get_set_neq D parentId dirName) by assumption.
  rewrite Hparent. simpl. unfold readINode.
  destruct (String.eqb_spec parentId dirName) as [|_]; [contradiction|].
  rewrite JSMapFacts.get_set_neq by congruence.
  rewrite !JSMapFacts.get_set_eq.
  repeat split. intros k Hk Hkp. now rewrite !JSMapFacts.get_set_neq.
Qed.

Lemma createDirectory_then_read_witness :
  let D' := snd (createDirectory "components" "icons" DATA) in
  fst (createDirectory "components" "icons" DATA)
  = Fulfilled (Directory "icons" "icons" []) /\
  readINode (Some "icons") D'
  = (Fulfilled (Some (Directory "icons" "icons" [])), D') /\
  JSMap.get "components" D'
  = Some (Directory "components" "components" ["button.tsx"; "icons"]) /\
  (forall k, k <> "icons" -> k <> "components" ->
             JSMap.get k D' = JSMap.get k DATA).
Proof.
  apply (createDirectory_then_read DATA "components" "icons"
           "components" "components" ["button.tsx"]).
  - reflexivity.
  - discriminate.
Defined.

(** Where the new entry goes: createFile and createDirectory put a derived
    id that the table does not hold last in the order of the table, and
    leave the order and the number of entries as they are when the table
    holds it, whatever the parent. *)
Theorem create_key_order
    (D : Store) (parentId name : string) (fileExtension : option string) :
  JSMap.keys (snd (createFile parentId name fileExtension D))
  = match JSMap.get (name ++ extension_of fileExtension)%string D with
    | Some _ => JSMap.keys D
    | None => JSMap.keys D ++ [(name ++ extension_of fileExtension)%string]
    end /\
  JSMap.keys (snd (createDirectory parentId name D))
  = match JSMap.get name D with
    | Some _ => JSMap.keys D
    | None => JSMap.keys D ++ [name]
    end.
Proof.
  split.
  - unfold createFile. set (newId := (name ++ _)%string).
    destruct (JSMap.get parentId (JSMap.set newId _ D))
      as [[i nm|i nm children]|] eqn:Hp; simpl; try apply keys_set.
    rewrite (JSMapFacts.keys_set_present _ _ _ _ Hp). apply keys_set.
  - unfold createDirectory.
    destruct (JSMap.get parentId (JSMap.set name _ D))
      as [[i nm|i nm children]|] eqn:Hp; simpl; try apply keys_set.
    rewrite (JSMapFacts.keys_set_present _ _ _ _ Hp). apply keys_set.
Qed.

(** ** What deleteNode removes *)

Lemma descendant_sub_store D' D k x :
  sub_store D' D -> descendant D' k x -> descendant D k x.
Proof.
  intros Hsub. induction 1 as [k i nm cs x Hk Hin|k i nm cs c x Hk Hin _ IH].
  - eapply desc_child; eauto.
  - eapply desc_below; eauto.
Qed.

(** What a loop of deletions removes was listed, or hung below an id that
    was listed. *)
Lemma for_each_child_only_removes fuel children :
  (forall c D p D' k,
     deleteNode fuel c D = Some (p, D') -> JSMap.get k D' = None ->
     JSMap.get k D = None \/ k = c \/ descendant D c k) ->
  forall D p D' k,
    for_each_child (deleteNode fuel) children D = Some (p, D') ->
    JSMap.get k D' = None ->
    JSMap.get k D = None \/
    exists c, In c children /\ (k = c \/ descendant D c k).
Proof.
  intros Hbody. induction children as [|c cs IH]; intros D p D' k; simpl.
  - intros [= _ <-]. auto.
  - destruct (deleteNode fuel c D) as [[[b|reason] D1]|] eqn:E;
      try discriminate.
    + intros Hloop Hk.
      pose proof (deleteNode_inv _ _ _ _ _ E) as (_ & Hsub & _).
      destruct (IH _ _ _ _ Hloop Hk) as [Hk1|(c' & Hin & Hc')].
      * destruct (Hbody _ _ _ _ _ E Hk1) as [?|Hc]; [now left|].
        right. exists c. split; [now left | exact Hc].
      * right. exists c'. split; [now right|].
        destruct Hc' as [?|Hd]; [now left|]. right.
        eapply descendant_sub_store; eauto.
    + intros [= _ <-] Hk.
      destruct (Hbody _ _ _ _ _ E Hk) as [?|Hc]; [now left|].
      right. exists c. split; [now left | exact Hc].
Qed.

Lemma deleteNode_only_removes fuel :
  forall nodeId D p D' k,
    deleteNode fuel nodeId D = Some (p, D') ->
    JSMap.get k D' = None ->
    JSMap.get k D = None \/ k = nodeId \/ descendant D nodeId k.
Proof.
  induction fuel as [|fuel IH]; intros nodeId D p D' k; [discriminate|].
  rewrite deleteNode_S.
  assert (Hlast : forall D1 : Store, JSMap.get k (JSMap.delete nodeId D1) = None ->
                             k = nodeId \/ JSMap.get k D1 = None).
  { intros D1 Hk. destruct (String.eqb_spec k nodeId) as [|Hne]; [now left|].
    right. now rewrite JSMapFacts.get_delete_neq in Hk. }
  destruct (JSMap.get nodeId D) as [[i nm|i nm children]|] eqn:Hget.
  - intros [= _ <-] Hk. destruct (Hlast _ Hk); auto.
  - destruct (0 <? length children)%nat.
    + destruct (for_each_child (deleteNode fuel) children D)
        as [[[[]|reason] D1]|] eqn:E; try discriminate.
      * intros [= _ <-] Hk. destruct (Hlast _ Hk) as [?|Hk1]; [auto|].
        destruct (for_each_child_only_removes fuel children IH _ _ _ _ E Hk1)
          as [?|(c & Hin & [->|Hd])]; [auto| |]; right; right.
        -- eapply desc_child; eauto.
        -- eapply desc_below; eauto.
      * intros [= _ <-] Hk.
        destruct (for_each_child_only_removes fuel children IH _ _ _ _ E Hk)
          as [?|(c & Hin & [->|Hd])]; [auto| |]; right; right.
        -- eapply desc_child; eauto.
        -- eapply desc_below; eauto.
    + intros [= _ <-] Hk. destruct (Hlast _ Hk); auto.
  - intros [= _ <-] Hk. auto.
Qed.

(** Whenever deleteNode returns, it has removed the id and every id that
    hung below it, and nothing else: every other entry of the table,
    children lists included, is the one it was. *)
Theorem deleteNode_removes_exactly
    (fuel : nat) (nodeId : string) (D : Store) (p : Promise bool) (D' : Store) :
  deleteNode fuel nodeId D = Some (p, D') ->
  forall k,
    (k = nodeId \/ descendant D nodeId k -> JSMap.get k D' = None) /\
    (k <> nodeId -> ~ descendant D nodeId k -> JSMap.get k D' = JSMap.get k D).
Proof.
  intros Hrun k. split.
  - intros [->|Hd].
    + now apply deleteNode_inv in Hrun.
    + eapply deleteNode_removes_descendants; eauto.
  - intros Hne Hnd.
    pose proof (deleteNode_inv _ _ _ _ _ Hrun) as (_ & Hsub & _).
    destruct (JSMap.get k D') as [v|] eqn:Hk.
    + symmetry. now apply Hsub.
    + destruct (deleteNode_only_removes _ _ _ _ _ _ Hrun Hk) as [?|[?|?]];
        [congruence | contradiction | contradiction].
Qed.

Lemma deleteNode_removes_exactly_witness :
  ("file-types.tsx" = "types" \/ descendant DATA "types" "file-types.tsx" ->
   JSMap.get "file-types.tsx"
     (JSMap.delete "types"
        (JSMap.delete "other-types.tsx"
           (JSMap.delete "file-types.tsx" DATA))) = None) /\
  ("file-types.tsx" <> "types" -> ~ descendant DATA "types" "file-types.tsx" ->
   JSMap.get "file-types.tsx"
     (JSMap.delete "types"
        (JSMap.delete "other-types.tsx"
           (JSMap.delete "file-types.tsx" DATA)))
   = JSMap.get "file-types.tsx" DATA).
Proof.
  apply (deleteNode_removes_exactly 2 "types" DATA (Fulfilled true)).
  reflexivity.
Defined.

(** Deleting the same id again, after a deleteNode that returned, returns
    false at once and leaves the table as it is. *)
Theorem deleteNode_twice
    (fuel : nat) (nodeId : string) (D : Store) (p : Promise bool) (D' : Store) :
  deleteNode fuel nodeId D = Some (p, D') ->
  forall fuel', deleteNode (S fuel') nodeId D' = Some (Fulfilled false, D').
Proof.
  intros Hrun fuel'. apply deleteNode_inv in Hrun as (_ & _ & Hgone).
  rewrite deleteNode_S. now rewrite Hgone.
Qed.

Lemma deleteNode_twice_witness :
  deleteNode 1 "index.tsx" (JSMap.delete "index.tsx" DATA)
  = Some (Fulfilled false, JSMap.delete "index.tsx" DATA).
Proof.
  apply (deleteNode_twice 1 "index.tsx" DATA (Fulfilled true)). reflexivity.
Defined.

(** What deleteNode returns when it returns: true for an id that the table
    holds, false for an id that it does not hold, and then the table is
    left untouched. *)
Theorem deleteNode_reports_presence
    (fuel : nat) (nodeId : string) (D : Store) (p : Promise bool) (D' : Store) :
  deleteNode fuel nodeId D = Some (p, D') ->
  p = Fulfilled (match JSMap.get nodeId D with Some _ => true | None => false end) /\
  (JSMap.get nodeId D = None -> D' = D).
Proof.
  intros Hrun. split.
  - pose proof (deleteNode_inv _ _ _ _ _ Hrun) as ((b & -> & Hb) & _).
    f_equal. destruct (JSMap.get nodeId D).
    + apply Hb. discriminate.
    + destruct b; [|reflexivity]. now destruct (proj1 Hb eq_refl).
  - intros Habsent. destruct fuel as [|fuel]; [discriminate|].
    rewrite deleteNode_S, Habsent in Hrun. now injection Hrun as _ <-.
Qed.

Lemma deleteNode_reports_presence_witness :
  Fulfilled false = Fulfilled false /\
  (JSMap.get "ghost.ts" DATA = None -> DATA = DATA).
Proof.
  apply (deleteNode_reports_presence 1 "ghost.ts" DATA (Fulfilled false) DATA).
  reflexivity.
Defined.

(** Where no directory hangs below itself (the children relation descends
    along a rank), the cascade of deleteNode nests no deeper than the rank
    of the id: with room for more nested calls than that rank the call
    fulfils, and with the same result however much more room there is. *)
Theorem deleteNode_returns_when_ranked
    (rank : string -> nat) (nodeId : string) (D : Store) :
  ranked rank D ->
  exists b D',
    forall room, rank nodeId < room ->
                 deleteNode room nodeId D = Some (Fulfilled b, D').
Proof.
  intros Hr. destruct (deleteNode_returns rank nodeId D Hr) as (p & D' & E).
  pose proof (deleteNode_inv _ _ _ _ _ E) as ((b & -> & _) & _).
  exists b, D'. intros fuel Hfuel.
  apply (deleteNode_mono _ _ _ _ E). lia.
Qed.

Lemma deleteNode_returns_when_ranked_witness :
  exists b D',
    forall room, seed_rank "components" < room ->
                 deleteNode room "components" DATA = Some (Fulfilled b, D').
Proof.
  apply (deleteNode_returns_when_ranked seed_rank "components" DATA).
  apply rankedb_ranked. vm_compute. reflexivity.
Defined.

(** ** A directory that lists itself *)

Lemma self_listed_survives d i nm cs fuel :
  In d cs ->
  forall nodeId D p D',
    JSMap.get d D = Some (Directory i nm cs) ->
    deleteNode fuel nodeId D = Some (p, D') ->
    nodeId <> d /\ JSMap.get d D' = Some (Directory i nm cs).
Proof.
  intros Hself. induction fuel as [|fuel IH]; intros nodeId D p D' Hd;
    [discriminate|].
  assert (Hloop : forall children D0 p1 D1,
             JSMap.get d D0 = Some (Directory i nm cs) ->
             for_each_child (deleteNode fuel) children D0 = Some (p1, D1) ->
             ~ In d children /\ JSMap.get d D1 = Some (Directory i nm cs)).
  { induction children as [|c rest IHc]; intros D0 p1 D1 Hd0; simpl.
    - intros [= _ <-]. tauto.
    - destruct (deleteNode fuel c D0) as [[p0 D2]|] eqn:E; [|discriminate].
      destruct (IH _ _ _ _ Hd0 E) as [Hc Hd2].
      apply deleteNode_inv in E as ((b & -> & _) & _).
      intros Hrest. destruct (IHc _ _ _ Hd2 Hrest) as [Hnotin Hd1].
      split; [|assumption]. intros [->|Hin]; contradiction. }
  rewrite deleteNode_S.
  destruct (JSMap.get nodeId D) as [[i' nm'|i' nm' children]|] eqn:Hget.
  - intros [= _ <-].
    assert (nodeId <> d) by congruence.
    split; [assumption|]. now rewrite JSMapFacts.get_delete_neq by congruence.
  - destruct (0 <? length children)%nat eqn:Hlen.
    + destruct (for_each_child (deleteNode fuel) children D)
        as [[[[]|reason] D1]|] eqn:E; try discriminate.
      * destruct (Hloop _ _ _ _ Hd E) as [Hnotin Hd1]. intros [= _ <-].
        assert (nodeId <> d) by (intros ->; congruence).
        split; [assumption|].
        now rewrite JSMapFacts.get_delete_neq by congruence.
      * apply for_each_child_inv in E as ([=] & _).
        intros c D0 p0 D2 _ Hrun.
        apply deleteNode_inv in Hrun as ((b & -> & _) & ? & ?). eauto.
    + intros [= _ <-].
      assert (nodeId <> d).
      { intros ->. rewrite Hd in Hget. injection Hget as <- <- <-.
        destruct cs; [destruct Hself | discriminate]. }
      split; [assumption|].
      now rewrite JSMapFacts.get_delete_neq by congruence.
  - intros [= _ <-]. split; [congruence | assumption].
Qed.

(** A directory that lists itself among its children cannot be deleted:
    no deleteNode call on it fulfils, whatever room the stack has (the
    cascade has no end), and every deleteNode call on the table that does
    fulfil has left that directory in the table as it was. *)
Theorem deleteNode_self_listed
    (D : Store) (d i nm : string) (cs : list string) :
  JSMap.get d D = Some (Directory i nm cs) ->
  In d cs ->
  (forall fuel b D', deleteNode fuel d D <> Some (Fulfilled b, D')) /\
  (forall fuel nodeId b D',
     deleteNode fuel nodeId D = Some (Fulfilled b, D') ->
     JSMap.get d D' = Some (Directory i nm cs)).
Proof.
  intros Hd Hself. split.
  - intros fuel b D' E.
    destruct (self_listed_survives d i nm cs fuel Hself _ _ _ _ Hd E).
    contradiction.
  - intros fuel nodeId b D' E.
    now destruct (self_listed_survives d i nm cs fuel Hself _ _ _ _ Hd E).
Qed.

Lemma deleteNode_self_listed_witness :
  (forall fuel b D',
     deleteNode fuel "loop" (snd (createDirectory "loop" "loop" DATA))
     <> Some (Fulfilled b, D')) /\
  (forall fuel nodeId b D',
     deleteNode fuel nodeId (snd (createDirectory "loop" "loop" DATA))
     = Some (Fulfilled b, D') ->
     JSMap.get "loop" D' = Some (Directory "loop" "loop" ["loop"])).
Proof.
  apply (deleteNode_self_listed (snd (createDirectory "loop" "loop" DATA))
           "loop" "loop" "loop" ["loop"]).
  - reflexivity.
  - simpl. tauto.
Defined.

(** createDirectory with the new directory named as its own parent,
    whatever the table: the directory returned and stored lists itself, and
    no deleteNode of it fulfils afterwards. *)
Theorem createDirectory_own_parent (D : Store) (dirName : string) :
  createDirectory dirName dirName D
  = (Fulfilled (Directory dirName dirName [dirName]),
     snd (createDirectory dirName dirName D)) /\
  JSMap.get dirName (snd (createDirectory dirName dirName D))
  = Some (Directory dirName dirName [dirName]) /\
  forall fuel b D',
    deleteNode fuel dirName (snd (createDirectory dirName dirName D))
    <> Some (Fulfilled b, D').
Proof.
  pose proof (createDirectory_stores D dirName dirName) as [Hret Hget].
  rewrite String.eqb_refl in Hret, Hget.
  split; [|split].
  - rewrite (surjective_pairing (createDirectory dirName dirName D)).
    now rewrite Hret.
  - exact Hget.
  - intros fuel b D' E.
    destruct (self_listed_survives dirName dirName dirName [dirName] fuel
                (or_introl eq_refl) _ _ _ _ Hget E).
    contradiction.
Qed.

(** ** No dangling children without a delete *)

Lemma no_dangling_set D k v :
  no_dangling D ->
  (forall i nm children c,
     v = Directory i nm children -> In c children ->
     JSMap.get c (JSMap.set k v D) <> None) ->
  no_dangling (JSMap.set k v D).
Proof.
  intros HD Hv k0 i nm children c.
  destruct (String.eqb_spec k0 k) as [->|Hne].
  - rewrite JSMapFacts.get_set_eq. intros [= ->] Hin.
    now apply (Hv i nm children c eq_refl).
  - rewrite JSMapFacts.get_set_neq by assumption. intros Hk Hin.
    apply get_set_not_None. now apply (HD k0 i nm children).
Qed.

Lemma no_dangling_DATA : no_dangling DATA.
Proof.
  intros k i nm children c Hget Hin.
  apply JSMapFacts.get_In in Hget. simpl in Hget.
  repeat (destruct Hget as [Hget|Hget];
          [ try discriminate Hget;
            injection Hget as <- <- <- <-; simpl in Hin;
            repeat (destruct Hin as [<-|Hin]; [simpl; discriminate|]);
            destruct Hin
          | ]).
  destruct Hget.
Qed.

(** As long as nothing is deleted, no children list dangles: in every table
    that create, rename and reset calls produce from the initial one, each
    id listed by a directory can be read. *)
Theorem built_no_dangling (D : Store) :
  built D ->
  forall k i nm children c,
    JSMap.get k D = Some (Directory i nm children) ->
    In c children ->
    exists node, readINode (Some c) D = (Fulfilled (Some node), D).
Proof.
  intros HD.
  assert (Hnd : no_dangling D).
  { induction HD as [|D parentId fileName fileExtension _ IH
                     |D parentId dirName _ IH
                     |D nodeId newName _ IH
                     |D _ _].
    - apply no_dangling_DATA.
    - unfold createFile. set (newId := (fileName ++ _)%string).
      assert (H1 : no_dangling (JSMap.set newId (File newId newId) D))
        by (apply no_dangling_set; [assumption | discriminate]).
      destruct (JSMap.get parentId _) as [[i nm|i nm children]|] eqn:Hp;
        simpl; auto.
      apply no_dangling_set; [assumption|].
      intros i0 nm0 cs c [= <- <- <-] Hin. apply get_set_not_None.
      apply in_app_or in Hin as [Hin|[<-|[]]].
      + now apply (H1 parentId i nm children).
      + now rewrite JSMapFacts.get_set_eq.
    - unfold createDirectory.
      assert (H1 : no_dangling
                     (JSMap.set dirName (Directory dirName dirName []) D)).
      { apply no_dangling_set; [assumption|].
        intros i nm cs c [= <- <- <-] []. }
      destruct (JSMap.get parentId _) as [[i nm|i nm children]|] eqn:Hp;
        simpl; auto.
      apply no_dangling_set; [assumption|].
      intros i0 nm0 cs c [= <- <- <-] Hin. apply get_set_not_None.
      apply in_app_or in Hin as [Hin|[<-|[]]].
      + now apply (H1 parentId i nm children).
      + now rewrite JSMapFacts.get_set_eq.
    - unfold renameNode.
      destruct (JSMap.get nodeId D) as [node|] eqn:Hn; simpl; auto.
      apply no_dangling_set; [assumption|].
      intros i nm cs c Hv Hin. apply get_set_not_None.
      destruct node as [i' nm'|i' nm' cs']; simpl in Hv; [discriminate|].
      injection Hv as <- <- <-. now apply (IH nodeId i' nm' cs').
    - rewrite resetFileSystem_any. apply no_dangling_DATA. }
  intros k i nm children c Hk Hin. unfold readINode.
  destruct (JSMap.get c D) as [node|] eqn:Hc.
  - now exists node.
  - exfalso. now apply (Hnd k i nm children c).
Qed.

Lemma built_no_dangling_witness :
  exists node,
    readINode (Some "api") (snd (createDirectory "types" "api" DATA))
    = (Fulfilled (Some node), snd (createDirectory "types" "api" DATA)).
Proof.
  apply (built_no_dangling (snd (createDirectory "types" "api" DATA)))
    with (k := "types") (i := "types") (nm := "types")
         (children := ["file-types.tsx"; "other-types.tsx"; "api"]).
  - apply built_createDirectory, built_init.
  - reflexivity.
  - simpl. tauto.
Defined.

(** ** Renames in a row *)

Lemma set_name_set_name n1 n2 node :
  set_name n2 (set_name n1 node) = set_name n2 node.
Proof. now destruct node. Qed.

Lemma set_name_own node : set_name (node_name node) node = node.
Proof. now destruct node. Qed.

(** Two renames of a node in a row amount to the second one alone, and
    renaming a node back to the name it had gives back the table there
    was, entry for entry and in the same order. *)
Theorem renameNode_twice
    (D : Store) (nodeId name1 name2 : string) (node : INode) :
  JSMap.get nodeId D = Some node ->
  renameNode nodeId name2 (snd (renameNode nodeId name1 D))
  = renameNode nodeId name2 D /\
  snd (renameNode nodeId (node_name node) (snd (renameNode nodeId name1 D)))
  = D.
Proof.
  intros Hget.
  assert (Hstep : forall n,
            renameNode nodeId n (snd (renameNode nodeId name1 D))
            = renameNode nodeId n D).
  { intros n. rewrite (renameNode_present D nodeId name1 node Hget). simpl.
    rewrite (renameNode_present D nodeId n node Hget).
    unfold renameNode. rewrite JSMapFacts.get_set_eq.
    now rewrite set_name_set_name, set_set. }
  split; [apply Hstep|].
  rewrite Hstep, (renameNode_present D nodeId _ node Hget). simpl.
  rewrite set_name_own. now apply set_get_same.
Qed.

Lemma renameNode_twice_witness :
  renameNode "index.tsx" "app.tsx" (snd (renameNode "index.tsx" "main.tsx" DATA))
  = renameNode "index.tsx" "app.tsx" DATA /\
  snd (renameNode "index.tsx" "index.tsx"
         (snd (renameNode "index.tsx" "main.tsx" DATA)))
  = DATA.
Proof.
  apply (renameNode_twice DATA "index.tsx" "main.tsx" "app.tsx"
           (File "index.tsx" "index.tsx")).
  reflexivity.
Defined.

(** ** What a search finds after an update *)

Lemma is_substring_prefix (a b : string) : is_substring a (a ++ b).
Proof. now exists ""%string, b. Qed.

(** Every entry whose name matches is among the results. *)
Lemma searchFiles_finds query D k node :
  In (k, node) (JSMap.entries D) ->
  is_substring (JSString.toLowerCase query)
               (JSString.toLowerCase (node_name node)) ->
  exists results,
    fst (searchFiles query D) = Fulfilled results /\
    In (mkSearchResult node (node_name node)) results.
Proof.
  intros Hin Hsub. eexists. split; [reflexivity|].
  rewrite searchFiles_loop_filter.
  apply in_map_iff. exists (k, node). split; [reflexivity|].
  apply filter_In. split; [assumption|]. now apply matches_spec.
Qed.

(** After a rename, a search for the new name, in whatever case it is
    typed, finds the renamed node. *)
Theorem renameNode_then_search
    (D : Store) (nodeId newName query : string) (node : INode) :
  JSMap.get nodeId D = Some node ->
  JSString.toLowerCase query = JSString.toLowerCase newName ->
  exists results,
    fst (searchFiles query (snd (renameNode nodeId newName D)))
    = Fulfilled results /\
    In (mkSearchResult (set_name newName node) newName) results.
Proof.
  intros Hget Hq.
  rewrite (renameNode_present D nodeId newName node Hget). simpl snd.
  destruct (set_name_fields newName node) as (Hname & _).
  destruct (searchFiles_finds query
              (JSMap.set nodeId (set_name newName node) D)
              nodeId (set_name newName node))
    as (results & Hres & Hin).
  - apply JSMapFacts.get_In, JSMapFacts.get_set_eq.
  - rewrite Hname, Hq. exists ""%string, ""%string. simpl.
    now rewrite append_empty_r.
  - exists results. rewrite Hname in Hin. auto.
Qed.

Lemma renameNode_then_search_witness :
  exists results,
    fst (searchFiles "MAIN.tsx" (snd (renameNode "index.tsx" "Main.TSX" DATA)))
    = Fulfilled results /\
    In (mkSearchResult (File "index.tsx" "Main.TSX") "Main.TSX") results.
Proof.
  apply (renameNode_then_search DATA "index.tsx" "Main.TSX" "MAIN.tsx"
           (File "index.tsx" "index.tsx")); reflexivity.
Defined.

(** After a createFile with a file name and an extension of ASCII
    characters, whatever the parent, a search for the file name without its
    extension finds the new file. *)
Theorem createFile_then_search
    (D : Store) (parentId fileName : string) (fileExtension : option string) :
  ascii_only fileName = true ->
  ascii_only (extension_of fileExtension) = true ->
  let newId := (fileName ++ extension_of fileExtension)%string in
  exists results,
    fst (searchFiles fileName
           (snd (createFile parentId fileName fileExtension D)))
    = Fulfilled results /\
    In (mkSearchResult (File newId newId) newId) results.
Proof.
  intros _ _ newId.
  apply (searchFiles_finds fileName _ newId (File newId newId)).
  - apply JSMapFacts.get_In. apply createFile_stores.
  - simpl. unfold newId. rewrite toLowerCase_append.
    apply is_substring_prefix.
Qed.

Lemma createFile_then_search_witness :
  exists results,
    fst (searchFiles "Notes" (snd (createFile "root" "Notes" None DATA)))
    = Fulfilled results /\
    In (mkSearchResult (File "Notes.txt" "Notes.txt") "Notes.txt") results.
Proof.
  apply (createFile_then_search DATA "root" "Notes" None); reflexivity.
Defined.

(** ** Reading back what a search returns *)

(** In a reachable table the keys are unique and every node sits under its
    own id, so a node returned by searchFiles can be read back with
    readINode under its id field. *)
Theorem search_results_can_be_read
    (D : Store) (query : string) (results : list SearchResult) (r : SearchResult) :
  reachable D ->
  fst (searchFiles query D) = Fulfilled results ->
  In r results ->
  readINode (Some (node_id (result_node r))) D
  = (Fulfilled (Some (result_node r)), D).
Proof.
  intros Hreach Hsearch Hin.
  destruct (reachable_invariant D Hreach) as [Hwf Hid].
  unfold searchFiles in Hsearch. simpl in Hsearch. injection Hsearch as <-.
  rewrite searchFiles_loop_filter in Hin.
  apply in_map_iff in Hin as ([k node] & <- & He).
  apply filter_In in He as [He _]. simpl.
  apply (JSMapFacts.In_get _ _ _ Hwf) in He.
  unfold readINode. rewrite (Hid k node He). now rewrite He.
Qed.

Lemma search_results_can_be_read_witness :
  readINode (Some "button.tsx") DATA
  = (Fulfilled (Some (File "button.tsx" "button.tsx")), DATA).
Proof.
  apply (search_results_can_be_read DATA "ton"
           [mkSearchResult (File "button.tsx" "button.tsx") "button.tsx"]
           (mkSearchResult (File "button.tsx" "button.tsx") "button.tsx")).
  - apply reach_init.
  - reflexivity.
  - simpl. tauto.
Defined.

(** ** Invariants and copies of reachable tables *)

(** Whatever calls were made, no key occurs twice in the table, the [id]
    field of every node is the key it is stored under, and getAllNodes
    returns the entries of the table, in their order, leaving the table as
    it is. *)
Theorem reachable_table_is_keyed (D : Store) :
  reachable D ->
  NoDup (JSMap.keys D) /\
  (forall k node, JSMap.get k D = Some node -> node_id node = k) /\
  getAllNodes D = (Fulfilled D, D).
Proof.
  intros Hreach. destruct (reachable_invariant D Hreach) as [Hwf Hid].
  split; [exact Hwf|]. split; [exact Hid|]. now apply getAllNodes_copy.
Qed.

Lemma reachable_table_is_keyed_witness :
  NoDup (JSMap.keys (snd (createFile "root" "index" (Some ".tsx") DATA))) /\
  (forall k node,
     JSMap.get k (snd (createFile "root" "index" (Some ".tsx") DATA)) = Some node ->
     node_id node = k) /\
  getAllNodes (snd (createFile "root" "index" (Some ".tsx") DATA))
  = (Fulfilled (snd (createFile "root" "index" (Some ".tsx") DATA)),
     snd (createFile "root" "index" (Some ".tsx") DATA)).
Proof.
  apply (reachable_table_is_keyed
           (snd (createFile "root" "index" (Some ".tsx") DATA))).
  apply reach_createFile, reach_init.
Defined.

(** * The tree viewer and the module it reads *)

(** ** The cache of getFileTrees *)

Lemma getFileTrees_hit dirId nodeCache D cached :
  JSMap.get dirId nodeCache = Some cached ->
  getFileTrees dirId nodeCache D = (Fulfilled cached, nodeCache).
Proof. unfold getFileTrees. now intros ->. Qed.

Lemma getFileTrees_miss dirId nodeCache D :
  JSMap.get dirId nodeCache = None ->
  getFileTrees dirId nodeCache D
  = (Fulfilled (JSMap.get dirId D),
     JSMap.set dirId (JSMap.get dirId D) nodeCache).
Proof. unfold getFileTrees. now intros ->. Qed.

Lemma getFileTrees_coherent dirId nodeCache D :
  coherent nodeCache D ->
  fst (getFileTrees dirId nodeCache D) = Fulfilled (JSMap.get dirId D) /\
  coherent (snd (getFileTrees dirId nodeCache D)) D.
Proof.
  intros Hc. destruct (JSMap.get dirId nodeCache) as [cached|] eqn:E.
  - rewrite (getFileTrees_hit _ _ _ _ E). simpl.
    split; [|assumption]. now rewrite (Hc dirId cached E).
  - rewrite (getFileTrees_miss _ _ _ E). simpl. split; [reflexivity|].
    intros k v. destruct (String.eqb_spec k dirId) as [->|Hne].
    + rewrite JSMapFacts.get_set_eq. now intros [= <-].
    + rewrite JSMapFacts.get_set_neq by assumption. apply Hc.
Qed.

Lemma after_reads_coherent (D : Store) (runs : list (string * Store)) :
  Forall (fun run => snd run = D) runs ->
  coherent (after_reads runs []) D.
Proof.
  intros Hruns.
  assert (H0 : coherent [] D) by (intros k v; discriminate).
  revert H0. generalize (@nil (string * option INode)).
  induction Hruns as [|[k D0] runs Hrun _ IH]; intros nodeCache H0; simpl;
    [assumption|].
  simpl in Hrun. subst D0. apply IH. now apply getFileTrees_coherent.
Qed.

Lemma unfinished_reachable_DATA (D : Store) :
  Unfinished.reachable D -> D = DATA.
Proof. induction 1; simpl; auto. Qed.

(** The viewer on the module with the operations left to do, where no node
    is ever updated in place: from an empty cache, whatever calls of that
    module come between the runs, a run of getFileTrees for any id hands
    over what readINode returns at that moment. *)
Theorem getFileTrees_faithful_on_unfinished
    (D : Store) (runs : list (string * Store)) (dirId : string) :
  Forall (fun run => Unfinished.reachable (snd run)) runs ->
  Unfinished.reachable D ->
  fst (getFileTrees dirId (after_reads runs []) D)
  = fst (readINode (Some dirId) D).
Proof.
  intros Hruns HD. apply unfinished_reachable_DATA in HD. subst D.
  assert (Hc : coherent (after_reads runs []) DATA).
  { apply after_reads_coherent.
    induction Hruns as [|run runs Hrun _ IH]; constructor; [|assumption].
    now apply unfinished_reachable_DATA. }
  now rewrite (proj1 (getFileTrees_coherent dirId _ DATA Hc)).
Qed.

Lemma getFileTrees_faithful_on_unfinished_witness :
  fst (getFileTrees "types"
         (after_reads
            [("root", DATA);
             ("types", snd (Unfinished.renameNode "types" "kinds" DATA))] [])
         (snd (resetFileSystem DATA)))
  = fst (readINode (Some "types") (snd (resetFileSystem DATA))).
Proof.
  apply (getFileTrees_faithful_on_unfinished (snd (resetFileSystem DATA))
           [("root", DATA);
            ("types", snd (Unfinished.renameNode "types" "kinds" DATA))]
           "types").
  - constructor; [apply Unfinished.reach_init|].
    constructor; [|constructor].
    apply (Unfinished.reach_renameNode DATA "types" "kinds"),
      Unfinished.reach_init.
  - apply Unfinished.reach_resetFileSystem, Unfinished.reach_init.
Defined.

(** ** The module with the operations left to do *)

(** No call of the module with the unfinished operations changes what the
    table holds: every table it reaches is the initial one, so readINode
    there always returns the entry of the initial tree. *)
Theorem unfinished_table_is_initial (D : Store) :
  Unfinished.reachable D ->
  D = DATA /\
  forall id, readINode id D = (fst (readINode id DATA), D).
Proof.
  intros Hreach.
  assert (HD : D = DATA).
  { induction Hreach; simpl; auto. }
  split; [assumption|]. intros id. now subst D.
Qed.

Lemma unfinished_table_is_initial_witness :
  snd (Unfinished.deleteNode "root"
         (snd (Unfinished.renameNode "index.tsx" "main.tsx" DATA))) = DATA /\
  forall id,
    readINode id
      (snd (Unfinished.deleteNode "root"
              (snd (Unfinished.renameNode "index.tsx" "main.tsx" DATA))))
    = (fst (readINode id DATA),
       snd (Unfinished.deleteNode "root"
              (snd (Unfinished.renameNode "index.tsx" "main.tsx" DATA)))).
Proof.
  apply (unfinished_table_is_initial
           (snd (Unfinished.deleteNode "root"
              (snd (Unfinished.renameNode "index.tsx" "main.tsx" DATA))))).
  apply Unfinished.reach_deleteNode, Unfinished.reach_renameNode,
    Unfinished.reach_init.
Defined.
